(** * ytd: verification of the download job of [app.py]

    A shallow embedding of [YouTubeDownloaderApp.download_url.job] and
    [YouTubeDownloaderApp.process_entry]: the string methods the code calls
    on titles, artists and URLs, the [pathlib] operations on file names, the
    files on disk as a finite set of paths, and the two functions themselves
    as computations that thread the disk, may raise, and record what they
    report to the progress bar and which external calls they make. *)

From Stdlib Require Import ZArith Ascii.
From stdpp Require Import base strings gmap list sorting pretty.

Local Open Scope Z_scope.

(** ** Python [str] methods

    A [str] is modelled as a [string] whose characters are the code points
    below 256. *)
Module PyStr.

Fixpoint startswith (s sub : string) {struct sub} : bool :=
  match sub, s with
  | EmptyString, _ => true
  | String a sub', String c s' => Ascii.eqb a c && startswith s' sub'
  | String _ _, EmptyString => false
  end.

(** [sub in s] *)
Fixpoint contains (s sub : string) : bool :=
  startswith s sub ||
  match s with
  | EmptyString => false
  | String _ s' => contains s' sub
  end.

(** [s.replace(old, new)] for a non-empty [old]: the occurrences are taken
    from left to right and do not overlap; [skip] counts the characters of
    the occurrence just replaced that are still to be passed over. *)
Fixpoint replace_from (old new : string) (skip : nat) (s : string) : string :=
  match s with
  | EmptyString => EmptyString
  | String c s' =>
      match skip with
      | S k => replace_from old new k s'
      | O =>
          if startswith s old
          then new +:+ replace_from old new (Nat.pred (String.length old)) s'
          else String c (replace_from old new O s')
      end
  end.

(** [s.replace("", new)] puts [new] before every character and at the end. *)
Fixpoint replace_empty (new : string) (s : string) : string :=
  match s with
  | EmptyString => new
  | String c s' => new +:+ String c (replace_empty new s')
  end.

Definition replace (s old new : string) : string :=
  match old with
  | EmptyString => replace_empty new s
  | String _ _ => replace_from old new O s
  end.

(** [s.split(sep)] for a non-empty [sep], as the first piece and the list of
    the pieces after it. *)
Fixpoint split_from (sep : string) (skip : nat) (s : string)
  : string * list string :=
  match s with
  | EmptyString => (EmptyString, [])
  | String c s' =>
      match skip with
      | S k => split_from sep k s'
      | O =>
          if startswith s sep
          then let '(p, r) := split_from sep (Nat.pred (String.length sep)) s' in
               (EmptyString, p :: r)
          else let '(p, r) := split_from sep O s' in (String c p, r)
      end
  end.

Definition split (s sep : string) : list string :=
  let '(p, r) := split_from sep O s in p :: r.

(** [l[0]] on the list a [split] returns, which is never empty. *)
Definition item0 (l : list string) : string := hd EmptyString l.

(** [str.isspace] on one character, for the code points below 256:
    tab to carriage return, the four separators 28 to 31, the space,
    NEL (133) and the no-break space (160). *)
Definition isspace (c : ascii) : bool :=
  let n := nat_of_ascii c in
  ((9 <=? n) && (n <=? 13))%nat || ((28 <=? n) && (n <=? 32))%nat
  || (n =? 133)%nat || (n =? 160)%nat.

Fixpoint lstrip_with (p : ascii → bool) (s : string) : string :=
  match s with
  | EmptyString => EmptyString
  | String c s' => if p c then lstrip_with p s' else s
  end.

Fixpoint rstrip_with (p : ascii → bool) (s : string) : string :=
  match s with
  | EmptyString => EmptyString
  | String c s' =>
      match rstrip_with p s' with
      | EmptyString => if p c then EmptyString else String c EmptyString
      | r => String c r
      end
  end.

Definition strip_with (p : ascii → bool) (s : string) : string :=
  rstrip_with p (lstrip_with p s).

(** [s.strip()] *)
Definition strip (s : string) : string := strip_with isspace s.

Fixpoint char_in (chars : string) (c : ascii) : bool :=
  match chars with
  | EmptyString => false
  | String a chars' => Ascii.eqb a c || char_in chars' c
  end.

(** [s.strip(chars)] *)
Definition strip_chars (s chars : string) : string :=
  strip_with (char_in chars) s.

(** [s[:n]] *)
Fixpoint take (n : nat) (s : string) : string :=
  match n, s with
  | S n', String c s' => String c (take n' s')
  | _, _ => EmptyString
  end.

(** [str.lower] on one character, for the code points below 256: the
    letters A to Z and the accented capitals 192 to 222 other than the
    multiplication sign 215. *)
Definition lower_char (c : ascii) : ascii :=
  let n := nat_of_ascii c in
  if ((65 <=? n) && (n <=? 90))%nat
     || ((192 <=? n) && (n <=? 222) && negb (n =? 215))%nat
  then ascii_of_nat (n + 32) else c.

Fixpoint lower (s : string) : string :=
  match s with
  | EmptyString => EmptyString
  | String c s' => String (lower_char c) (lower s')
  end.

(** Truth value of a [str]: the empty string is false. *)
Definition truthy (s : string) : bool :=
  match s with EmptyString => false | String _ _ => true end.

End PyStr.

(** ** Paths ([pathlib.Path])

    A path is its parent directory and its final component; the final
    component of a file path is not empty and holds no separator. *)
Record Path := { parent : string; name : string }.

Global Instance Path_eq_dec : EqDecision Path.
Proof. solve_decision. Defined.

Global Instance Path_countable : Countable Path :=
  inj_countable' (λ p, (parent p, name p)) (λ '(d, n), Build_Path d n)
                 (λ p, match p with Build_Path _ _ => eq_refl end).

Module PyPath.

(** [name.rfind('.')] *)
Fixpoint rfind_dot (s : string) : option nat :=
  match s with
  | EmptyString => None
  | String c s' =>
      match rfind_dot s' with
      | Some i => Some (S i)
      | None => if Ascii.eqb c "." then Some O else None
      end
  end.

Fixpoint drop (n : nat) (s : string) : string :=
  match n, s with
  | S n', String _ s' => drop n' s'
  | _, _ => s
  end.

(** The index [i] of the last dot when [0 < i < len(name) - 1]. *)
Definition suffix_index (name : string) : option nat :=
  match rfind_dot name with
  | Some i =>
      if ((0 <? i) && (i <? String.length name - 1))%nat then Some i else None
  | None => None
  end.

Definition suffix (p : Path) : string :=
  match suffix_index (name p) with
  | Some i => drop i (name p)
  | None => EmptyString
  end.

Definition stem (p : Path) : string :=
  match suffix_index (name p) with
  | Some i => PyStr.take i (name p)
  | None => name p
  end.

(** [p.with_suffix(suffix)], for a suffix that starts with a dot and a
    path with a final component. *)
Definition with_suffix (p : Path) (new_suffix : string) : Path :=
  let old_suffix := suffix p in
  {| parent := parent p;
     name :=
       match old_suffix with
       | EmptyString => name p +:+ new_suffix
       | String _ _ =>
           PyStr.take (String.length (name p) - String.length old_suffix)
                      (name p) +:+ new_suffix
       end |}.

(** [p.parent / name], for a [name] without separator. *)
Definition sibling (p : Path) (new_name : string) : Path :=
  {| parent := parent p; name := new_name |}.

(** [out_dir = Path("./ytd_download")] *)
Definition out_dir : string := "ytd_download".

(** Whether [p.relative_to(out_dir)] returns (it raises [ValueError] for a
    path that is not below [out_dir]). *)
Definition below_out_dir (p : Path) : bool :=
  String.eqb (parent p) out_dir || PyStr.startswith (parent p) (out_dir +:+ "/").

End PyPath.

(** ** Data of the job *)

(** The combobox values of [format_var]. *)
Inductive Format := m4a | mp3 | flac | wav.

Global Instance Format_eq_dec : EqDecision Format.
Proof. solve_decision. Defined.

Definition format_str (f : Format) : string :=
  match f with m4a => "m4a" | mp3 => "mp3" | flac => "flac" | wav => "wav" end.

(** The tags written by [process_entry], keyed as in the MP4 container:
    [©nam], [©ART], [©alb], [©day], [©gen], [desc], [ldes], [covr]. *)
Record Tags := {
  nam : string; ART : string; alb : string; day : string; gen : string;
  desc : string; ldes : string; covr : option string }.

(** One item of [sections[0]["metadata"]]. *)
Record MetaItem := { item_title : option string; item_text : option string }.

(** The keys of a non-empty recognized [track] that the code reads; an
    absent key is [None].  [coverart] and [background] are the keys of
    [images], [genres_primary] is [genres["primary"]], and a section is the
    value of its [metadata] key, if it has one. *)
Record Track := {
  track_title : option string;
  track_subtitle : option string;
  coverart : option string;
  background : option string;
  genres_primary : option string;
  sections : list (option (list MetaItem)) }.

(** What [recognize_track] returns. *)
Inductive Result :=
| ResultEmpty                 (* {} *)
| ResultNoTrack               (* a non-empty dict without the key "track" *)
| ResultEmptyTrack            (* "track": {} *)
| ResultTrack (t : Track).    (* "track": a non-empty dict *)

(** The keys of a fetched entry that the code reads, and the file name
    [Path(str(ydl.prepare_filename(entry)))].  A key is missing ([None]
    here) or holds a string: an [Entry] is an entry none of whose keys
    holds Python's [None].  The entries that do, for which lines 350, 351
    and 420 raise, are the [RawEntry] of [process_raw_entry] below, which
    agrees with [process_entry] on the entries of strings. *)
Record Entry := {
  filename : Path;
  uploader : option string;
  title : option string;
  upload_date : option string;
  description : option string;
  webpage_url : option string }.

(** What is recorded of a run: the values given to [update_progress], the
    calls of [finish_bar] (which colours the bar and shows the file name or
    the error; its own [update_progress(100)] is recorded as such), and the
    external calls. *)
Inductive Event :=
| UpdateProgress (val : Z)
| FinishBar (success : bool) (filename error_msg : option string)
| ShowError (title message : string)
| ExtractInfo (url outtmpl : string)
| FfmpegTemp (src dst : Path)
| Recognize (file_path : Path)
| Unlink (p : Path)
| OpenMP4 (p : Path)
| RequestsGet (url : string)
| Save (p : Path) (tags : Tags)
| Rename (src dst : Path)
| FfmpegConvert (src dst : Path).

(** ** Computations: the disk is threaded, an exception is its message *)

Inductive Res (A : Type) := Ret (a : A) | Exc (e : string).
Arguments Ret {A} a.
Arguments Exc {A} e.

Definition M (A : Type) : Type := gset Path → Res A * gset Path * list Event.

Global Instance M_ret : MRet M := λ A a fs, (Ret a, fs, []).

Global Instance M_bind : MBind M := λ A B k m fs,
  match m fs with
  | (Ret a, fs1, l1) => let '(r, fs2, l2) := k a fs1 in (r, fs2, l1 ++ l2)
  | (Exc e, fs1, l1) => (Exc e, fs1, l1)
  end.

Definition raise {A} (e : string) : M A := λ fs, (Exc e, fs, []).

(** [try: m  except Exception as e: h e] *)
Definition try_except {A} (m : M A) (h : string → M A) : M A := λ fs,
  match m fs with
  | (Ret a, fs1, l1) => (Ret a, fs1, l1)
  | (Exc e, fs1, l1) => let '(r, fs2, l2) := h e fs1 in (r, fs2, l1 ++ l2)
  end.

(** [try: m  finally: c] *)
Definition finally {A} (m : M A) (c : M unit) : M A := λ fs,
  let '(r, fs1, l1) := m fs in
  match c fs1 with
  | (Ret _, fs2, l2) => (r, fs2, l1 ++ l2)
  | (Exc e, fs2, l2) => (Exc e, fs2, l1 ++ l2)
  end.

Definition emit (ev : Event) : M unit := λ fs, (Ret (), fs, [ev]).

Definition modify (f : gset Path → gset Path) : M unit := λ fs,
  (Ret (), f fs, []).

(** ** External calls

    Each takes what the outside world does at that call: an [Io] for a call
    that returns or raises, a [Proc] for an [ffmpeg] run. *)

Inductive Io := IoOk | IoRaise (e : string).

(** [subprocess.run(..., check=True)]: on success the output file is
    written; a failed run may have written it or not. *)
Inductive Proc := ProcOk | ProcRaise (e : string) (wrote_output : bool).

Inductive Recognition := Returns (r : Result) | RecognizeRaises (e : string).

(** [requests.get(cover_url).content] *)
Inductive Download := Content (data : string) | GetRaises (e : string).

(** What the outside world does at the external calls made for one entry,
    each of which is made at most once. *)
Record World := {
  temp_encode : Proc;        (* ffmpeg, downloaded file -> temporary MP3 *)
  recognition : Recognition; (* recognize_track *)
  temp_unlink : Io;          (* temp_mp3_path.unlink() *)
  mp4_open : Io;             (* MP4(str(downloaded_path)) *)
  cover_get : Download;      (* requests.get(cover_url) *)
  mp4_save : Io;             (* audio.save() *)
  rename_file : Io;          (* downloaded_path.rename(new_path) *)
  convert : Proc;            (* ffmpeg, tagged file -> selected format *)
  source_unlink : Io         (* result_path.unlink() *) }.

Definition update_progress (val : Z) : M unit := emit (UpdateProgress val).

(** [p.exists()] *)
Definition path_exists (p : Path) : M bool := λ fs,
  (Ret (bool_decide (p ∈ fs)), fs, []).

Definition run_io (ev : Event) (o : Io) : M unit :=
  emit ev;; match o with IoOk => mret () | IoRaise e => raise e end.

Definition run_ffmpeg (ev : Event) (dst : Path) (o : Proc) : M unit :=
  emit ev;;
  match o with
  | ProcOk => modify (λ fs, {[dst]} ∪ fs)
  | ProcRaise e wrote =>
      (if wrote then modify (λ fs, {[dst]} ∪ fs) else mret ());; raise e
  end.

Definition recognize_track (file_path : Path) (o : Recognition) : M Result :=
  emit (Recognize file_path);;
  match o with Returns r => mret r | RecognizeRaises e => raise e end.

(** [p.unlink()] *)
Definition unlink (p : Path) (o : Io) : M unit :=
  emit (Unlink p);;
  match o with
  | IoOk => modify (λ fs, fs ∖ {[p]})
  | IoRaise e => raise e
  end.

(** [src.rename(dst)] *)
Definition rename (src dst : Path) (o : Io) : M unit :=
  emit (Rename src dst);;
  match o with
  | IoOk => modify (λ fs, {[dst]} ∪ (fs ∖ {[src]}))
  | IoRaise e => raise e
  end.

Definition requests_get (url : string) (o : Download) : M string :=
  emit (RequestsGet url);;
  match o with Content d => mret d | GetRaises e => raise e end.

(** ** [process_entry] *)

(** The characters stripped last from both ends of a title: the space, the
    punctuation below, the double quote (34) and the backslash (92). *)
Definition STRIP_CHARS : string :=
  " -_?!.,;:()[]{}'" +:+ String "034" (String "092" EmptyString).

(** Lines 352 to 358: the title cleaned of the uploader's name, of what
    follows the first bracket or the first "(Official", of "(Visual)" and
    of the separators at both ends. *)
Definition clean_title (uploader raw_title : string) : string :=
  let title := raw_title in
  let title :=
    if PyStr.contains title uploader
    then PyStr.strip (PyStr.replace title uploader EmptyString)
    else title in
  let title := PyStr.strip (PyStr.item0 (PyStr.split title "[")) in
  let title := PyStr.strip (PyStr.item0 (PyStr.split title "(Official")) in
  let title := PyStr.strip (PyStr.replace title "(Visual)" EmptyString) in
  PyStr.strip_chars title STRIP_CHARS.

(** [result.get("track", {})]: [None] is the empty dict. *)
Definition get_track (result : Result) : option Track :=
  match result with
  | ResultTrack t => Some t
  | _ => None
  end.

(** [not result or "track" not in result or not result["track"]] *)
Definition no_track (result : Result) : bool :=
  match result with
  | ResultTrack _ => false
  | _ => true
  end.

(** [track_data.get(key, fallback)] *)
Definition track_get (track_data : option Track)
    (key : Track → option string) (fallback : string) : string :=
  match track_data with
  | Some t => default fallback (key t)
  | None => fallback
  end.

(** [a or b] on the values of two [dict.get] calls. *)
Definition py_or (a b : option string) : option string :=
  match a with
  | Some x => if PyStr.truthy x then a else b
  | None => b
  end.

(** [images.get("coverart") or images.get("background")] *)
Definition get_cover_url (track_data : option Track) : option string :=
  match track_data with
  | Some t => py_or (coverart t) (background t)
  | None => None
  end.

(** One turn of the loop over [sections[0]["metadata"]], on
    [(album, year, genre)]. *)
Definition metadata_item (acc : string * string * string) (item : MetaItem)
  : string * string * string :=
  let '(album, year, genre) := acc in
  let key := PyStr.lower (default EmptyString (item_title item)) in
  let text := default EmptyString (item_text item) in
  if String.eqb key "album" then (text, year, genre)
  else if String.eqb key "released" || String.eqb key "release date"
          || String.eqb key "year"
  then (album, PyStr.item0 (PyStr.split text "-"), genre)
  else if String.eqb key "genre" then (album, year, text)
  else acc.

(** Lines 416 to 440, for an upload date that is missing or a string: the
    tags other than the cover. *)
Definition resolve_tags (entry : Entry) (track_data : option Track)
    (song_title artist : string) (cover : option string) : Tags :=
  let album := EmptyString in
  let year := PyStr.take 4 (default EmptyString (upload_date entry)) in
  let genre :=
    match track_data with
    | Some t =>
        match genres_primary t with
        | Some g => if PyStr.truthy g then g else EmptyString
        | None => EmptyString
        end
    | None => EmptyString
    end in
  let '(album, year, genre) :=
    match track_data with
    | Some t =>
        match sections t with
        | Some metadata :: _ => fold_left metadata_item metadata (album, year, genre)
        | _ => (album, year, genre)
        end
    | None => (album, year, genre)
    end in
  {| nam := song_title; ART := artist; alb := album; day := year; gen := genre;
     desc := default EmptyString (description entry);
     ldes := default EmptyString (webpage_url entry);
     covr := cover |}.

(** Lines 455 to 459: the file name of the tagged file. *)
Definition new_name (artist song_title : string) : string :=
  let safe_artist := PyStr.replace artist "/" "_" in
  let safe_title := PyStr.replace song_title "/" "_" in
  let safe_title :=
    if PyStr.contains safe_title "(" && negb (PyStr.contains safe_title ")")
    then safe_title +:+ ")" else safe_title in
  safe_artist +:+ " - " +:+ safe_title +:+ ".m4a".

Definition NO_TRACK_INFO : string :=
  "Shazam recognition failed: No track info returned.".

(** Lines 365 to 404: the recognition on a temporary MP3, which is removed
    afterwards if it exists; a failed removal is only logged. *)
Definition recognition_stage (downloaded_path temp_mp3_path : Path) (w : World)
  : M Result :=
  finally
    (try_except
       (run_ffmpeg (FfmpegTemp downloaded_path temp_mp3_path) temp_mp3_path
                   (temp_encode w);;
        result ← recognize_track temp_mp3_path (recognition w);
        update_progress 96;;
        mret result)
       (λ _, update_progress 96;; mret ResultEmpty))
    (found ← path_exists temp_mp3_path;
     if found : bool
     then try_except (unlink temp_mp3_path (temp_unlink w)) (λ _, mret ())
     else mret ()).

(** Line 350, for an uploader that is missing or a string. *)
Definition entry_uploader (entry : Entry) : string :=
  PyStr.replace (default "Unknown" (uploader entry)) "/" "_".

(** Lines 351 to 358, for a title that is missing or a string: the title
    used when the track has none. *)
Definition entry_title (entry : Entry) : string :=
  let raw_title := PyStr.replace (default "Unknown" (title entry)) "/" "_" in
  clean_title (entry_uploader entry) raw_title.

(** Line 407. *)
Definition artist_of (entry : Entry) (result : Result) : string :=
  track_get (get_track result) track_subtitle (entry_uploader entry).

(** Line 408. *)
Definition song_title_of (entry : Entry) (result : Result) : string :=
  track_get (get_track result) track_title (entry_title entry).

(** Line 460. *)
Definition new_path (entry : Entry) (result : Result) : Path :=
  PyPath.sibling (filename entry)
                 (new_name (artist_of entry result) (song_title_of entry result)).

(** Lines 406 to 468: the tags are resolved and saved and the file is
    renamed; without a recognized track an exception is raised before
    anything is saved. *)
Definition tag_and_rename (entry : Entry) (w : World) (result : Result)
  : M (option Path) :=
  let downloaded_path := filename entry in
  let track_data := get_track result in
  let artist := artist_of entry result in
  let song_title := song_title_of entry result in
  let cover_url := get_cover_url track_data in
  run_io (OpenMP4 downloaded_path) (mp4_open w);;
  if no_track result then raise NO_TRACK_INFO else
  cover ←
    match cover_url with
    | Some url =>
        if PyStr.truthy url
        then try_except (img_data ← requests_get url (cover_get w);
                         mret (Some img_data))
                        (λ _, mret None)
        else mret None
    | None => mret None
    end;
  run_io (Save downloaded_path
               (resolve_tags entry track_data song_title artist cover))
         (mp4_save w);;
  let new_path := new_path entry result in
  try_except
    (rename downloaded_path new_path (rename_file w);;
     (if PyPath.below_out_dir new_path then mret () else raise "ValueError");;
     mret (Some new_path))
    (λ _, mret None).

Definition temp_path (entry : Entry) : Path :=
  PyPath.with_suffix (filename entry) ".temp.mp3".

Definition process_entry (entry : Entry) (w : World) : M (option Path) :=
  let downloaded_path := filename entry in
  found ← path_exists downloaded_path;
  if negb found then mret None else
  update_progress 92;;
  result ← recognition_stage downloaded_path (temp_path entry) w;
  tag_and_rename entry w result.

(** ** [process_entry] on the entries as the fetcher gives them

    The fetcher reports a field it does not know as a key that holds
    [None], and [entry.get(key, fallback)] then returns [None], not the
    fallback. *)

(** The value of a key that the code reads as a string. *)
Inductive Field :=
| Missing             (* the key is not in the dict *)
| PyNone              (* the key holds None *)
| Str (s : string).   (* the key holds a string *)

(** The file name and the three keys on which a string method or a slice is
    applied; the description and the URL of the page are only handed to the
    container, and are kept as in [Entry]. *)
Record RawEntry := {
  raw_filename : Path;
  raw_uploader : Field;
  raw_title : Field;
  raw_upload_date : Field;
  raw_description : option string;
  raw_webpage_url : option string }.

(** The text of [AttributeError] for [None.replace]. *)
Definition ATTRIBUTE_ERROR : string :=
  "'NoneType' object has no attribute 'replace'".

(** The text of [TypeError] for [None[:4]]. *)
Definition TYPE_ERROR : string := "'NoneType' object is not subscriptable".

(** [entry.get(key, fallback).replace("/", "_")] of lines 350 and 351. *)
Definition get_replaced (v : Field) (fallback : string) : M string :=
  match v with
  | Missing => mret (PyStr.replace fallback "/" "_")
  | Str s => mret (PyStr.replace s "/" "_")
  | PyNone => raise ATTRIBUTE_ERROR
  end.

(** [entry.get("upload_date", "")[:4]] of line 420. *)
Definition get_year (v : Field) : M string :=
  match v with
  | Missing => mret (PyStr.take 4 EmptyString)
  | Str s => mret (PyStr.take 4 s)
  | PyNone => raise TYPE_ERROR
  end.

(** Lines 416 to 440 after line 420: the tags other than the cover, from
    the year of the upload. *)
Definition resolve_raw_tags (year : string)
    (description webpage_url : option string) (track_data : option Track)
    (song_title artist : string) (cover : option string) : Tags :=
  let album := EmptyString in
  let genre :=
    match track_data with
    | Some t =>
        match genres_primary t with
        | Some g => if PyStr.truthy g then g else EmptyString
        | None => EmptyString
        end
    | None => EmptyString
    end in
  let '(album, year, genre) :=
    match track_data with
    | Some t =>
        match sections t with
        | Some metadata :: _ => fold_left metadata_item metadata (album, year, genre)
        | _ => (album, year, genre)
        end
    | None => (album, year, genre)
    end in
  {| nam := song_title; ART := artist; alb := album; day := year; gen := genre;
     desc := default EmptyString description;
     ldes := default EmptyString webpage_url;
     covr := cover |}.

(** Lines 341 to 468. *)
Definition process_raw_entry (raw : RawEntry) (w : World) : M (option Path) :=
  let downloaded_path := raw_filename raw in
  found ← path_exists downloaded_path;
  if negb found then mret None else
  uploader ← get_replaced (raw_uploader raw) "Unknown";
  raw_title ← get_replaced (raw_title raw) "Unknown";
  let title := clean_title uploader raw_title in
  update_progress 92;;
  let temp_mp3_path := PyPath.with_suffix downloaded_path ".temp.mp3" in
  result ← recognition_stage downloaded_path temp_mp3_path w;
  let track_data := get_track result in
  let artist := track_get track_data track_subtitle uploader in
  let song_title := track_get track_data track_title title in
  let cover_url := get_cover_url track_data in
  run_io (OpenMP4 downloaded_path) (mp4_open w);;
  if no_track result then raise NO_TRACK_INFO else
  year ← get_year (raw_upload_date raw);
  cover ←
    match cover_url with
    | Some url =>
        if PyStr.truthy url
        then try_except (img_data ← requests_get url (cover_get w);
                         mret (Some img_data))
                        (λ _, mret None)
        else mret None
    | None => mret None
    end;
  run_io (Save downloaded_path
               (resolve_raw_tags year (raw_description raw)
                  (raw_webpage_url raw) track_data song_title artist cover))
         (mp4_save w);;
  let new_path :=
    PyPath.sibling downloaded_path (new_name artist song_title) in
  try_except
    (rename downloaded_path new_path (rename_file w);;
     (if PyPath.below_out_dir new_path then mret () else raise "ValueError");;
     mret (Some new_path))
    (λ _, mret None).

(** The string of a key that holds one. *)
Definition present (v : Field) : option string :=
  match v with Str s => Some s | _ => None end.

(** The entry of strings of an entry none of whose keys holds [None]. *)
Definition strings_of (raw : RawEntry) : Entry :=
  {| filename := raw_filename raw;
     uploader := present (raw_uploader raw);
     title := present (raw_title raw);
     upload_date := present (raw_upload_date raw);
     description := raw_description raw;
     webpage_url := raw_webpage_url raw |}.

(** ** [job] *)

(** One call of the progress hook: [total] tells whether
    [d.get("total_bytes") or d.get("total_bytes_estimate")] is true, and
    [percent] is [int(downloaded / total * 100)], float arithmetic on the
    byte counts of the call. *)
Inductive HookCall :=
| Downloading (total : bool) (percent : Z)
| Finished
| OtherStatus.

Definition hook (d : HookCall) : M unit :=
  match d with
  | Downloading total percent =>
      if total then update_progress percent else mret ()
  | Finished => update_progress 90
  | OtherStatus => mret ()
  end.

(** What [ydl.extract_info] returns: [None] (errors are ignored by
    [YT_OPTIONS]), one entry, or a playlist with its entries, of which
    those that are [None] are dropped. *)
Inductive Info :=
| InfoNone
| InfoSingle (entry : Entry * World)
| InfoEntries (entries : list (option (Entry * World))).

(** What the fetcher does during [extract_info]: the hook calls it makes,
    the files it writes, and what it returns or raises. *)
Record Fetch := {
  hook_calls : list HookCall;
  written : gset Path;
  fetched : Res Info }.

Definition OUTTMLP : string := "ytd_download/%(id)s.%(ext)s".
Definition OUTTMLP_PLAYLIST : string :=
  "ytd_download/%(playlist_title)s/%(id)s.%(ext)s".

Fixpoint run_hooks (calls : list HookCall) : M unit :=
  match calls with
  | [] => mret ()
  | d :: calls' => hook d;; run_hooks calls'
  end.

Definition extract_info (url outtmpl : string) (f : Fetch) : M Info :=
  emit (ExtractInfo url outtmpl);;
  run_hooks (hook_calls f);;
  modify (λ fs, written f ∪ fs);;
  match fetched f with Ret info => mret info | Exc e => raise e end.

Definition finish_bar (success : bool) (filename error_msg : option string)
  : M unit :=
  emit (FinishBar success filename error_msg);;
  update_progress 100.

(** How the body of the loop over the entries ends. *)
Inductive Flow :=
| Next (final_filename : option string)
| Return.

(** Lines 286 to 328: the body of the loop. *)
Definition entry_step (selected_format : Format) (final_filename : option string)
    (ew : Entry * World) : M Flow :=
  update_progress 90;;
  try_except
    (result_path ← process_entry ew.1 ew.2;
     match result_path with
     | Some result_path =>
         if bool_decide (selected_format ≠ m4a)
         then
           let converted_path :=
             PyPath.with_suffix result_path ("." +:+ format_str selected_format) in
           try_except
             (run_ffmpeg (FfmpegConvert result_path converted_path)
                         converted_path (convert ew.2);;
              unlink result_path (source_unlink ew.2);;
              mret (Next (Some (PyPath.stem converted_path))))
             (λ e, finish_bar false None (Some ("Convert Error: " +:+ e));;
                   mret Return)
         else mret (Next (Some (PyPath.stem result_path)))
     | None => mret (Next final_filename)
     end)
    (λ e, finish_bar false None (Some ("Tagging Error: " +:+ e));;
          mret Return).

Fixpoint entries_loop (selected_format : Format)
    (final_filename : option string) (entries : list (Entry * World))
  : M Flow :=
  match entries with
  | [] => mret (Next final_filename)
  | ew :: entries' =>
      flow ← entry_step selected_format final_filename ew;
      match flow with
      | Next final_filename' =>
          entries_loop selected_format final_filename' entries'
      | Return => mret Return
      end
  end.

(** [job], with [allow_playlist] and [selected_format] read from the two
    widgets.  [error_occurred] is only set on paths that return at once,
    so it is false where it is tested.  A [None] info makes
    ["entries" in info] raise, which nothing catches. *)
Definition job (allow_playlist : bool) (selected_format : Format)
    (url : string) (f : Fetch) : M unit :=
  update_progress 5;;
  let url_local :=
    if negb allow_playlist then PyStr.item0 (PyStr.split url "&list=")
    else url in
  let outtmpl :=
    if PyStr.contains url_local "&list=" then OUTTMLP_PLAYLIST else OUTTMLP in
  info ←
    try_except
      (update_progress 10;;
       info ← extract_info url_local outtmpl f;
       mret (Some info))
      (λ e, finish_bar false None (Some ("Download Error: " +:+ e));;
            emit (ShowError "Download Error"
                            ("Error downloading video: " +:+ e));;
            mret None);
  match info with
  | None => mret ()
  | Some info =>
      entries ←
        match info with
        | InfoNone => raise "argument of type 'NoneType' is not iterable"
        | InfoSingle ew => mret [ew]
        | InfoEntries l => mret (omap id l)
        end;
      flow ←
        try_except
          (entries_loop selected_format None entries)
          (λ e, finish_bar false None (Some ("Tagging Error: " +:+ e));;
                mret Return);
      match flow with
      | Return => mret ()
      | Next final_filename =>
          update_progress 100;;
          finish_bar true final_filename None
      end
  end.

(** The values given to [update_progress], in order. *)
Definition progress (l : list Event) : list Z :=
  omap (λ ev, match ev with UpdateProgress val => Some val | _ => None end) l.

(** The entries of the loop of [job]. *)
Definition fetched_entries (f : Fetch) : list (Entry * World) :=
  match fetched f with
  | Ret (InfoSingle ew) => [ew]
  | Ret (InfoEntries l) => omap id l
  | _ => []
  end.

(** What the recognition stage hands to the tagging: the result of
    [recognize_track], or the empty dict when the stage raised. *)
Definition stage_result (w : World) : Result :=
  match temp_encode w, recognition w with
  | ProcOk, Returns r => r
  | _, _ => ResultEmpty
  end.

(** * Vocabulary of the properties *)

(** ** Strings and names *)

(** The first piece of a split. *)
Definition first_piece (s sep : string) : string := (PyStr.split_from sep O s).1.

(** No character to strip at the left end. *)
Definition lstripped (p : ascii → bool) (s : string) : Prop :=
  match s with EmptyString => True | String c _ => p c = false end.

(** The horizontal tab. *)
Definition TAB : ascii := "009".

(** Every occurrence of the character [a] replaced by [b]. *)
Fixpoint subst_char (a b : ascii) (s : string) : string :=
  match s with
  | EmptyString => EmptyString
  | String c s' => String (if Ascii.eqb c a then b else c) (subst_char a b s')
  end.

(** A closing parenthesis appended to a title that has an opening one and
    no closing one. *)
Definition balance_paren (t : string) : string :=
  if PyStr.char_in t "(" && negb (PyStr.char_in t ")") then t +:+ ")" else t.

(** The part of [s] before the first occurrence of [sep], or all of [s]
    when [sep] does not occur in it. *)
Definition prefix_before_first (sep s p : string) : Prop :=
  (∃ r, s = p +:+ sep +:+ r ∧
        ∀ p' r', s = p' +:+ sep +:+ r' →
                 (String.length p ≤ String.length p')%nat)
  ∨ (p = s ∧ ∀ p' r', s ≠ p' +:+ sep +:+ r').

(** [s[-1]], if any. *)
Fixpoint last_char (s : string) : option ascii :=
  match s with
  | EmptyString => None
  | String c s' =>
      match last_char s' with Some d => Some d | None => Some c end
  end.

(** ** Events and failures *)

Definition is_finish (ev : Event) : bool :=
  match ev with FinishBar _ _ _ => true | _ => false end.

Definition is_convert (ev : Event) : bool :=
  match ev with FfmpegConvert _ _ => true | _ => false end.

Definition is_save (ev : Event) : bool :=
  match ev with Save _ _ => true | _ => false end.

Definition is_rename (ev : Event) : bool :=
  match ev with Rename _ _ => true | _ => false end.

Definition is_fetch (ev : Event) : bool :=
  match ev with ExtractInfo _ _ => true | _ => false end.

(** The calls of [finish_bar] of a run. *)
Definition finish_calls (l : list Event) : list Event := List.filter is_finish l.

(** What [finish_bar(False, error_msg=label + e)] records. *)
Definition failed (label e : string) : list Event :=
  [FinishBar false None (Some (label +:+ e)); UpdateProgress 100].

(** What the end of a successful [job] records. *)
Definition succeeded (final_filename : option string) : list Event :=
  [UpdateProgress 100; FinishBar true final_filename None; UpdateProgress 100].

(** The kinds of failure of a job, and the kind a message is labelled
    with: the job puts one of three prefixes before the text of the
    exception, and has none of its own for a failed recognition. *)
Inductive ErrorKind := FetchError | RecognitionError | TaggingError | ConvertError.

Definition error_kind (error_msg : string) : option ErrorKind :=
  if PyStr.startswith error_msg "Download Error: " then Some FetchError
  else if PyStr.startswith error_msg "Tagging Error: " then Some TaggingError
  else if PyStr.startswith error_msg "Convert Error: " then Some ConvertError
  else None.

(** ** The stages of a run *)

(** What the recognition stage may record. *)
Definition stage_event (d t : Path) (ev : Event) : Prop :=
  ev = FfmpegTemp d t ∨ ev = Recognize t ∨ ev = UpdateProgress 96
  ∨ ev = Unlink t.

(** The exception of [process_entry] when no track was recognized: that
    of [MP4(...)] if it raises, and else the one of line 419. *)
Definition open_error (w : World) : string :=
  match mp4_open w with IoOk => NO_TRACK_INFO | IoRaise e => e end.

(** What the tagging and the renaming may record. *)
Definition tag_event (entry : Entry) (result : Result) (ev : Event) : Prop :=
  ev = OpenMP4 (filename entry) ∨ (∃ url, ev = RequestsGet url)
  ∨ (∃ cover, ev = Save (filename entry)
                   (resolve_tags entry (get_track result)
                      (song_title_of entry result) (artist_of entry result)
                      cover))
  ∨ ev = Rename (filename entry) (new_path entry result).

(** What [process_entry] may record. *)
Definition entry_event (entry : Entry) (w : World) (ev : Event) : Prop :=
  ev = UpdateProgress 92
  ∨ stage_event (filename entry) (temp_path entry) ev
  ∨ tag_event entry (stage_result w) ev.

(** Neither a save of the tags, nor a rename, nor a conversion. *)
Definition no_output (ev : Event) : Prop :=
  is_save ev = false ∧ is_rename ev = false ∧ is_convert ev = false.

(** Line 292. *)
Definition converted_path (selected_format : Format) (p : Path) : Path :=
  PyPath.with_suffix p ("." +:+ format_str selected_format).

(** The exception of the conversion step, if it raises: that of [ffmpeg],
    or else that of the removal of the source. *)
Definition convert_error (w : World) : option string :=
  match convert w, source_unlink w with
  | ProcRaise e _, _ => Some e
  | ProcOk, IoRaise e => Some e
  | ProcOk, IoOk => None
  end.

(** What the calls of the progress hook record. *)
Definition hook_events (calls : list HookCall) : list Event :=
  calls ≫= λ d,
    match d with
    | Downloading total percent =>
        if total then [UpdateProgress percent] else []
    | Finished => [UpdateProgress 90]
    | OtherStatus => []
    end.

(** Lines 242 to 245. *)
Definition url_local (allow_playlist : bool) (url : string) : string :=
  if negb allow_playlist then PyStr.item0 (PyStr.split url "&list=") else url.

(** What every [job] records up to the end of [extract_info]. *)
Definition job_prefix (allow_playlist : bool) (url : string) (f : Fetch)
  : list Event :=
  [UpdateProgress 5; UpdateProgress 10;
   ExtractInfo (url_local allow_playlist url)
     (if PyStr.contains (url_local allow_playlist url) "&list="
      then OUTTMLP_PLAYLIST else OUTTMLP)]
  ++ hook_events (hook_calls f).

(** The loop reaches the entry [ew]: the entries before it were processed
    without ending the job, and left the file name [ff] to report, the disk
    [fs1] and the events [l1]. *)
Definition reaches (fmt : Format) (f : Fetch) (fs : gset Path)
    (before : list (Entry * World)) (ew : Entry * World)
    (after : list (Entry * World)) (ff : option string) (fs1 : gset Path)
    (l1 : list Event) : Prop :=
  fetched_entries f = before ++ ew :: after ∧
  entries_loop fmt None before (written f ∪ fs) = (Ret (Next ff), fs1, l1).

(** ** A job to run the claims on

    The entry of the spec's example, downloaded as [abc.m4a], in a world
    where every external call succeeds and the track is recognized; and the
    same world with one call that fails. *)

Definition ex_path : Path := {| parent := "ytd_download"; name := "abc.m4a" |}.

Definition ex_entry : Entry :=
  {| filename := ex_path;
     uploader := Some "Artist";
     title := Some "Artist - Song [Official Video]";
     upload_date := Some "20200131";
     description := None;
     webpage_url := None |}.

Definition ex_track : Track :=
  {| track_title := Some "Song"; track_subtitle := Some "Artist";
     coverart := None; background := None; genres_primary := None;
     sections := [] |}.

Definition ex_world : World :=
  {| temp_encode := ProcOk;
     recognition := Returns (ResultTrack ex_track);
     temp_unlink := IoOk;
     mp4_open := IoOk;
     cover_get := Content EmptyString;
     mp4_save := IoOk;
     rename_file := IoOk;
     convert := ProcOk;
     source_unlink := IoOk |}.

(** The fetcher reports the download from 0 to 100 percent and its end,
    and writes the file. *)
Definition ex_fetch (w : World) : Fetch :=
  {| hook_calls := [Downloading true 0; Downloading true 100; Finished];
     written := {[ex_path]};
     fetched := Ret (InfoSingle (ex_entry, w)) |}.

Definition ex_url : string := "https://x.test/watch?v=abc&list=XYZ".

(** The file of the example once renamed. *)
Definition ex_new_path : Path :=
  {| parent := "ytd_download"; name := "Artist - Song.m4a" |}.

Definition no_match_world : World :=
  {| temp_encode := ProcOk;
     recognition := Returns ResultEmpty;
     temp_unlink := IoOk;
     mp4_open := IoOk;
     cover_get := Content EmptyString;
     mp4_save := IoOk;
     rename_file := IoOk;
     convert := ProcOk;
     source_unlink := IoOk |}.

Definition rename_fail_world : World :=
  {| temp_encode := ProcOk;
     recognition := Returns (ResultTrack ex_track);
     temp_unlink := IoOk;
     mp4_open := IoOk;
     cover_get := Content EmptyString;
     mp4_save := IoOk;
     rename_file := IoRaise "[Errno 13] Permission denied";
     convert := ProcOk;
     source_unlink := IoOk |}.

Definition convert_fail_world : World :=
  {| temp_encode := ProcOk;
     recognition := Returns (ResultTrack ex_track);
     temp_unlink := IoOk;
     mp4_open := IoOk;
     cover_get := Content EmptyString;
     mp4_save := IoOk;
     rename_file := IoOk;
     convert := ProcRaise "Command returned non-zero exit status 1." true;
     source_unlink := IoOk |}.

Definition unlink_fail_world : World :=
  {| temp_encode := ProcOk;
     recognition := Returns (ResultTrack ex_track);
     temp_unlink := IoRaise "[Errno 13] Permission denied";
     mp4_open := IoOk;
     cover_get := Content EmptyString;
     mp4_save := IoOk;
     rename_file := IoOk;
     convert := ProcOk;
     source_unlink := IoOk |}.

(** A fetcher whose hook reports 10, 50 and the end of the download. *)
Definition steady_fetch : Fetch :=
  {| hook_calls := [Downloading true 10; Downloading true 50; Finished];
     written := {[ex_path]};
     fetched := Ret (InfoSingle (ex_entry, ex_world)) |}.

Definition second_path : Path := {| parent := "ytd_download"; name := "def.m4a" |}.

Definition second_entry : Entry :=
  {| filename := second_path;
     uploader := Some "Artist";
     title := Some "Artist - Other";
     upload_date := None;
     description := None;
     webpage_url := None |}.

(** * The submission of a download ([download_url]) *)

(** ** Regular expressions ([re])

    A pattern without back-references matches a string from its start to
    its end exactly when the string is in its language, which the
    derivatives decide. *)
Module Re.

Inductive regex :=
| Void                      (* no string *)
| Eps                       (* the empty string *)
| Class (p : ascii → bool)  (* one character of a class *)
| Seq (r1 r2 : regex)
| Alt (r1 r2 : regex)
| Star (r : regex).

(** [r?] *)
Definition opt (r : regex) : regex := Alt r Eps.

(** [r+] *)
Definition plus (r : regex) : regex := Seq r (Star r).

(** The characters of [s], one after the other. *)
Fixpoint lit (s : string) : regex :=
  match s with
  | EmptyString => Eps
  | String c s' => Seq (Class (Ascii.eqb c)) (lit s')
  end.

Fixpoint nullable (r : regex) : bool :=
  match r with
  | Void => false
  | Eps => true
  | Class _ => false
  | Seq r1 r2 => nullable r1 && nullable r2
  | Alt r1 r2 => nullable r1 || nullable r2
  | Star _ => true
  end.

Fixpoint deriv (c : ascii) (r : regex) : regex :=
  match r with
  | Void => Void
  | Eps => Void
  | Class p => if p c then Eps else Void
  | Seq r1 r2 =>
      Alt (Seq (deriv c r1) r2) (if nullable r1 then deriv c r2 else Void)
  | Alt r1 r2 => Alt (deriv c r1) (deriv c r2)
  | Star r1 => Seq (deriv c r1) (Star r1)
  end.

(** The whole of [s] is matched by [r]. *)
Fixpoint fullmatch (r : regex) (s : string) : bool :=
  match s with
  | EmptyString => nullable r
  | String c s' => fullmatch (deriv c r) s'
  end.

(** [re.compile("^" + r + "$").match(s)]: the dollar matches at the end of
    the string and also just before a newline that ends it. *)
Definition match_to_end (r : regex) (s : string) : bool :=
  fullmatch r s || fullmatch (Seq r (lit (String "010" EmptyString))) s.

End Re.

(** [\w] on the code points below 256: the letters, the digits and the
    underscore of ASCII, and the letters and numbers of Latin-1 (170, 178,
    179, 181, 185, 186, 188 to 190, 192 to 255 but for 215 and 247). *)
Definition is_word (c : ascii) : bool :=
  let n := nat_of_ascii c in
  ((48 <=? n) && (n <=? 57))%nat || ((65 <=? n) && (n <=? 90))%nat
  || (n =? 95)%nat || ((97 <=? n) && (n <=? 122))%nat
  || (n =? 170)%nat || (n =? 178)%nat || (n =? 179)%nat || (n =? 181)%nat
  || (n =? 185)%nat || (n =? 186)%nat || ((188 <=? n) && (n <=? 190))%nat
  || ((192 <=? n) && (n <=? 255) && negb (n =? 215) && negb (n =? 247))%nat.

(** [[a-zA-Z]] *)
Definition is_ascii_letter (c : ascii) : bool :=
  let n := nat_of_ascii c in
  ((65 <=? n) && (n <=? 90))%nat || ((97 <=? n) && (n <=? 122))%nat.

(** [[0-9]] *)
Definition is_ascii_digit (c : ascii) : bool :=
  let n := nat_of_ascii c in ((48 <=? n) && (n <=? 57))%nat.

(** [[\w.-]] *)
Definition is_host_char (c : ascii) : bool :=
  is_word c || Ascii.eqb c "." || Ascii.eqb c "-".

(** [\S] *)
Definition is_nonspace (c : ascii) : bool := negb (PyStr.isspace c).

(** Line 168, between the caret and the dollar: an optional scheme http or
    https with its colon and two slashes, one or more host characters, a
    dot, two or more ASCII letters, an optional colon with one or more
    digits, and an optional slash with any characters but white space. *)
Definition url_regex : Re.regex :=
  Re.Seq (Re.opt (Re.Seq (Re.lit "http")
                    (Re.Seq (Re.opt (Re.lit "s")) (Re.lit "://"))))
    (Re.Seq (Re.plus (Re.Class is_host_char))
       (Re.Seq (Re.lit ".")
          (Re.Seq (Re.Seq (Re.Class is_ascii_letter)
                     (Re.Seq (Re.Class is_ascii_letter)
                        (Re.Star (Re.Class is_ascii_letter))))
             (Re.Seq (Re.opt (Re.Seq (Re.lit ":")
                                (Re.plus (Re.Class is_ascii_digit))))
                (Re.opt (Re.Seq (Re.lit "/")
                           (Re.Star (Re.Class is_nonspace)))))))).

(** [url_pattern.match(url)] is not [None]. *)
Definition url_pattern_match (url : string) : bool :=
  Re.match_to_end url_regex url.

(** [s.find(sub)] for a non-empty [sub]; [None] is -1. *)
Fixpoint find (s sub : string) : option nat :=
  if PyStr.startswith s sub then Some O
  else match s with
       | EmptyString => None
       | String _ s' =>
           match find s' sub with Some i => Some (S i) | None => None end
       end.

(** [s.find(sub, start)] *)
Definition find_from (s sub : string) (start : nat) : option nat :=
  match find (PyPath.drop start s) sub with
  | Some i => Some (start + i)%nat
  | None => None
  end.

(** [s[i:j]] for [i <= j] *)
Definition slice (i j : nat) (s : string) : string :=
  PyStr.take (j - i) (PyPath.drop i s).

(** Lines 179 to 191: the text shown for a download, the part of the URL
    after "?v=" (or else after "v=") and before the next "&list=". *)
Definition get_url_id (url : string) : string :=
  let v_idx :=
    match find url "?v=" with
    | Some i => Some (i + 3)%nat
    | None =>
        match find url "v=" with
        | Some i => Some (i + 2)%nat
        | None => None
        end
    end in
  match v_idx with
  | None => url
  | Some v_idx =>
      match find_from url "&list=" v_idx with
      | None => PyPath.drop v_idx url
      | Some end_idx => slice v_idx end_idx url
      end
  end.

(** The part of the window that [download_url] reads and writes: the text
    of the URL entry, and [active_downloads], of which an item is
    represented by the grid row of its widgets. *)
Record Gui := {
  url_entry : string;
  active_downloads : gmap string nat }.

(** What [download_url] does besides: the warning, the widgets it puts in
    a row with the style it configures for the bar, the thread it starts. *)
Inductive Action :=
| ShowWarning (title message : string)
| AddRow (row : nat) (text style_name : string)
| StartJob (url : string).

(** Line 199. *)
Definition style_name (row : nat) : string :=
  "bar" +:+ pretty row +:+ ".Horizontal.TProgressbar".

(** Lines 164 to 213 and 339. *)
Definition download_url (g : Gui) : Gui * list Action :=
  let url := PyStr.strip (url_entry g) in
  if negb (PyStr.truthy url) || negb (url_pattern_match url)
  then ({| url_entry := EmptyString; active_downloads := active_downloads g |},
        [ShowWarning "Input Error" "Please enter a valid video URL."])
  else
    let url_id := get_url_id url in
    let row := size (active_downloads g) in
    ({| url_entry := EmptyString;
        active_downloads := <[url_id := row]> (active_downloads g) |},
     [AddRow row url_id (style_name row); StartJob url]).

(** ** More vocabulary *)


(** The file name without extension of the tagged file of an entry. *)
Definition base_name (entry : Entry) (result : Result) : string :=
  subst_char "/" "_" (artist_of entry result) +:+ " - "
  +:+ balance_paren (subst_char "/" "_" (song_title_of entry result)).

(** The values that [job] and [process_entry] report themselves. *)
Definition own_progress (val : Z) : Prop :=
  val = 5 ∨ val = 10 ∨ val = 90 ∨ val = 92 ∨ val = 96 ∨ val = 100.

Definition is_request (ev : Event) : bool :=
  match ev with RequestsGet _ => true | _ => false end.

(** A pattern that matches no string. *)
Fixpoint void (r : Re.regex) : bool :=
  match r with
  | Re.Void => true
  | Re.Seq r1 r2 => void r1 || void r2
  | Re.Alt r1 r2 => void r1 && void r2
  | _ => false
  end.

(** No class of the pattern has the character [c]. *)
Fixpoint avoids (c : ascii) (r : Re.regex) : bool :=
  match r with
  | Re.Class p => negb (p c)
  | Re.Seq r1 r2 | Re.Alt r1 r2 => avoids c r1 && avoids c r2
  | Re.Star r1 => avoids c r1
  | _ => true
  end.

(** The 256 characters. *)
Definition all_ascii : list ascii := map ascii_of_nat (seq 0 256).

(** Every string of the pattern has the character [c]: on every way
    through the pattern there is a class that holds [c] only. *)
Fixpoint requires (c : ascii) (r : Re.regex) : bool :=
  match r with
  | Re.Void => true
  | Re.Class p => forallb (λ x, implb (p x) (Ascii.eqb x c)) all_ascii
  | Re.Seq r1 r2 => requires c r1 || requires c r2
  | Re.Alt r1 r2 => requires c r1 && requires c r2
  | _ => false
  end.

(** The text of the URL entry passes the test of line 170. *)
Definition accepted (g : Gui) : Prop :=
  PyStr.strip (url_entry g) ≠ EmptyString ∧
  url_pattern_match (PyStr.strip (url_entry g)) = true.

(** Every active download has a row below the number of downloads. *)
Definition rows_below (m : gmap string nat) : Prop :=
  ∀ url_id row, m !! url_id = Some row → (row < size m)%nat.

(** ** The disk after the loop *)

(** The turn of the loop for [ew] leaves no file at [t]: its converted
    file has another name, and when its temporary MP3 is [t] the removal of
    this file does not raise. *)
Definition leaves_free (fmt : Format) (t : Path) (ew : Entry * World) : Prop :=
  (fmt ≠ m4a → converted_path fmt (new_path ew.1 (stage_result ew.2)) ≠ t) ∧
  (temp_path ew.1 = t → temp_unlink ew.2 = IoOk).

(** ** The keys of a raw entry *)

(** Line 366. *)
Definition raw_temp_path (raw : RawEntry) : Path :=
  PyPath.with_suffix (raw_filename raw) ".temp.mp3".

(** The key holds the string [s], or it is missing and [s] is the
    fallback. *)
Definition key_value (v : Field) (fallback s : string) : Prop :=
  (v = Missing ∧ s = fallback) ∨ v = Str s.

(** ** What a finished row shows *)

(** The colours of lines 225 and 227. *)
Definition GREEN : string := "#4BB543".
Definition RED : string := "#FF3333".

(** Lines 224 to 227: the colour [finish_bar] gives to the bar. *)
Definition bar_color (success : bool) : string :=
  if success then GREEN else RED.

(** The label beside the bar: its text and its foreground, if one is set. *)
Record FileLabel := { text : string; foreground : option string }.

(** The truth value of an optional string argument, [None] being false. *)
Definition given (o : option string) : bool :=
  match o with Some s => PyStr.truthy s | None => false end.

(** Lines 230 to 238: the label [finish_bar] puts beside the bar, if any. *)
Definition file_label (filename error_msg : option string)
  : option FileLabel :=
  let display_text := if given error_msg then error_msg else filename in
  match display_text with
  | Some t =>
      if PyStr.truthy t
      then Some {| text := t;
                   foreground := if given error_msg then Some RED else None |}
      else None
  | None => None
  end.

(** A file name to report that is not the empty string. *)
Definition named (final_filename : option string) : Prop :=
  ∀ n, final_filename = Some n → n ≠ EmptyString.

(** ** More runs for the examples *)

(** A track with an empty cover art and a background picture. *)
Definition background_track : Track :=
  {| track_title := Some "Song"; track_subtitle := Some "Artist";
     coverart := Some EmptyString; background := Some "http://img.test/bg.jpg";
     genres_primary := None; sections := [] |}.

(** A run in which this track is recognized. *)
Definition background_world : World :=
  {| temp_encode := ProcOk;
     recognition := Returns (ResultTrack background_track);
     temp_unlink := IoOk;
     mp4_open := IoOk;
     cover_get := Content "jpeg";
     mp4_save := IoOk;
     rename_file := IoOk;
     convert := ProcOk;
     source_unlink := IoOk |}.

(** A track payload without any of the keys that are read. *)
Definition bare_track : Track :=
  {| track_title := None; track_subtitle := None;
     coverart := None; background := None; genres_primary := None;
     sections := [] |}.

(** A run in which this track is recognized. *)
Definition bare_world : World :=
  {| temp_encode := ProcOk;
     recognition := Returns (ResultTrack bare_track);
     temp_unlink := IoOk;
     mp4_open := IoOk;
     cover_get := Content EmptyString;
     mp4_save := IoOk;
     rename_file := IoOk;
     convert := ProcOk;
     source_unlink := IoOk |}.

(** A track with a genre and a metadata section of two items. *)
Definition released_track : Track :=
  {| track_title := Some "Song"; track_subtitle := Some "Artist";
     coverart := None; background := None; genres_primary := Some "Pop";
     sections :=
       [Some [{| item_title := Some "Album"; item_text := Some "First" |};
              {| item_title := Some "Released";
                 item_text := Some "2019-05-17" |}]] |}.

(** A download that raises after one report of the hook. *)
Definition failing_fetch : Fetch :=
  {| hook_calls := [Downloading true 40];
     written := ∅;
     fetched := Exc "HTTP Error 403: Forbidden" |}.

(** A playlist whose files are those of the two example entries. *)
Definition playlist_fetch (entries : list (option (Entry * World))) : Fetch :=
  {| hook_calls := [];
     written := {[ex_path; second_path]};
     fetched := Ret (InfoEntries entries) |}.

(** A run in which the conversion works and the removal of its source
    raises. *)
Definition source_kept_world : World :=
  {| temp_encode := ProcOk;
     recognition := Returns (ResultTrack ex_track);
     temp_unlink := IoOk;
     mp4_open := IoOk;
     cover_get := Content EmptyString;
     mp4_save := IoOk;
     rename_file := IoOk;
     convert := ProcOk;
     source_unlink := IoRaise "[Errno 13] Permission denied" |}.

(** A download whose converted MP3 gets the name of its temporary MP3:
    the track is titled [b.temp] and the download is [A - b.m4a]. *)
Definition temp_named_path : Path :=
  {| parent := "ytd_download"; name := "A - b.m4a" |}.

Definition temp_named_entry : Entry :=
  {| filename := temp_named_path;
     uploader := Some "A";
     title := Some "b";
     upload_date := None;
     description := None;
     webpage_url := None |}.

Definition temp_named_track : Track :=
  {| track_title := Some "b.temp"; track_subtitle := Some "A";
     coverart := None; background := None; genres_primary := None;
     sections := [] |}.

Definition temp_named_world : World :=
  {| temp_encode := ProcOk;
     recognition := Returns (ResultTrack temp_named_track);
     temp_unlink := IoOk;
     mp4_open := IoOk;
     cover_get := Content EmptyString;
     mp4_save := IoOk;
     rename_file := IoOk;
     convert := ProcOk;
     source_unlink := IoOk |}.

Definition temp_named_fetch : Fetch :=
  {| hook_calls := [];
     written := {[temp_named_path]};
     fetched := Ret (InfoSingle (temp_named_entry, temp_named_world)) |}.

(** The entry of the example with an uploader that the fetcher does not
    know. *)
Definition none_uploader_entry : RawEntry :=
  {| raw_filename := ex_path;
     raw_uploader := PyNone;
     raw_title := Str "Artist - Song [Official Video]";
     raw_upload_date := Str "20200131";
     raw_description := None;
     raw_webpage_url := None |}.


(** An entry without uploader, with slashes in its title. *)
Definition no_uploader_entry : RawEntry :=
  {| raw_filename := ex_path;
     raw_uploader := Missing;
     raw_title := Str "Live 1/2 (Official Video)";
     raw_upload_date := Missing;
     raw_description := None;
     raw_webpage_url := None |}.

(** * Facts about the string methods *)

Section PyStrFacts.

Import PyStr.

Lemma app_empty_l (s : string) : EmptyString +:+ s = s.
Proof. reflexivity. Qed.

Lemma app_cons (c : ascii) (s t : string) :
  String c s +:+ t = String c (s +:+ t).
Proof. reflexivity. Qed.

Lemma app_empty_r (s : string) : s +:+ EmptyString = s.
Proof. induction s as [|c s IH]; [done|]. by rewrite app_cons, IH. Qed.

Lemma app_assoc_str (s t u : string) : (s +:+ t) +:+ u = s +:+ (t +:+ u).
Proof. induction s as [|c s IH]; [done|]. by rewrite !app_cons, IH. Qed.

Lemma app_length_str (s t : string) :
  String.length (s +:+ t) = (String.length s + String.length t)%nat.
Proof. induction s as [|c s IH]; [done|]. rewrite app_cons. simpl. by rewrite IH. Qed.

Lemma startswith_empty (s : string) : startswith s EmptyString = true.
Proof. by destruct s. Qed.

Lemma startswith_app (s sub : string) :
  startswith s sub = true ↔ ∃ r, s = sub +:+ r.
Proof.
  revert s. induction sub as [|a sub IH]; intros s.
  - split; [intros _; by exists s|by destruct s].
  - destruct s as [|c s]; simpl.
    + split; [done|]. intros [r Hr]. by rewrite app_cons in Hr.
    + rewrite andb_true_iff, IH. split.
      * intros [Hac [r ->]]. apply Ascii.eqb_eq in Hac as ->.
        exists r. by rewrite app_cons.
      * intros [r Hr]. rewrite app_cons in Hr. injection Hr as -> ->.
        split; [apply Ascii.eqb_refl|by exists r].
Qed.

Lemma item0_split (s sep : string) : item0 (split s sep) = first_piece s sep.
Proof. unfold split, first_piece. by destruct (split_from sep O s). Qed.

Lemma first_piece_cons (c : ascii) (s sep : string) :
  first_piece (String c s) sep =
  if startswith (String c s) sep then EmptyString
  else String c (first_piece s sep).
Proof.
  unfold first_piece. cbn [split_from].
  destruct (startswith (String c s) sep).
  - by destruct (split_from sep _ s).
  - by destruct (split_from sep O s).
Qed.

Lemma first_piece_no_sep (s sep : string) :
  contains s sep = false → first_piece s sep = s.
Proof.
  induction s as [|c s IH]; [done|].
  intros H. cbn [contains] in H. apply orb_false_iff in H as [H1 H2].
  rewrite first_piece_cons, H1. by rewrite IH.
Qed.

Lemma replace_no_old (s old new : string) :
  contains s old = false → replace s old new = s.
Proof.
  destruct old as [|a old]; [by destruct s|].
  unfold replace. induction s as [|c s IH]; [done|].
  intros H. cbn [contains] in H. apply orb_false_iff in H as [H1 H2].
  cbn [replace_from]. rewrite H1. by rewrite IH.
Qed.

Lemma replace_empty_empty (s : string) : replace_empty EmptyString s = s.
Proof. induction s as [|c s IH]; [done|]. simpl. by rewrite app_empty_l, IH. Qed.

(** ** Stripping *)

Lemma lstrip_lstripped p s : lstripped p (lstrip_with p s).
Proof.
  induction s as [|c s IH]; [done|]. simpl.
  destruct (p c) eqn:Hc; [done|]. by simpl.
Qed.

Lemma lstripped_lstrip p s : lstripped p s → lstrip_with p s = s.
Proof. destruct s as [|c s]; [done|]. simpl. by intros ->. Qed.

Lemma rstrip_lstripped p s : lstripped p s → lstripped p (rstrip_with p s).
Proof.
  destruct s as [|c s]; [done|]. simpl. intros Hc.
  destruct (rstrip_with p s); [by rewrite Hc|done].
Qed.

Lemma rstrip_idem p s : rstrip_with p (rstrip_with p s) = rstrip_with p s.
Proof.
  induction s as [|c s IH]; [done|]. simpl.
  destruct (rstrip_with p s) as [|d r] eqn:Hr.
  - destruct (p c) eqn:Hc; [done|]. simpl. by rewrite Hc.
  - simpl. simpl in IH. by rewrite IH.
Qed.

Lemma strip_with_idem p s : strip_with p (strip_with p s) = strip_with p s.
Proof.
  unfold strip_with.
  rewrite (lstripped_lstrip p (rstrip_with p _)).
  - apply rstrip_idem.
  - apply rstrip_lstripped, lstrip_lstripped.
Qed.

(** ** Characters that do not occur *)

Lemma contains_char (s : string) (a : ascii) :
  contains s (String a EmptyString) = char_in s a.
Proof.
  induction s as [|c s IH]; [done|]. simpl. rewrite IH.
  by rewrite ?startswith_empty, andb_true_r, Ascii.eqb_sym.
Qed.

Lemma char_in_app (s t : string) (a : ascii) :
  char_in (s +:+ t) a = char_in s a || char_in t a.
Proof.
  induction s as [|c s IH]; [done|]. rewrite app_cons. simpl.
  by rewrite IH, orb_assoc.
Qed.

Lemma lstrip_char_in p s a :
  char_in s a = false → char_in (lstrip_with p s) a = false.
Proof.
  induction s as [|c s IH]; [done|]. simpl. intros H.
  apply orb_false_iff in H as [H1 H2].
  destruct (p c); [by apply IH|]. simpl. by rewrite H1, H2.
Qed.

Lemma rstrip_char_in p s a :
  char_in s a = false → char_in (rstrip_with p s) a = false.
Proof.
  induction s as [|c s IH]; [done|]. simpl. intros H.
  apply orb_false_iff in H as [H1 H2]. specialize (IH H2).
  destruct (rstrip_with p s) as [|d r].
  - destruct (p c); [done|]. simpl. by rewrite H1.
  - simpl. simpl in IH. by rewrite H1, IH.
Qed.

Lemma strip_with_char_in p s a :
  char_in s a = false → char_in (strip_with p s) a = false.
Proof. intros H. by apply rstrip_char_in, lstrip_char_in. Qed.

Lemma split_from_char_in sep k s a :
  char_in s a = false → char_in (split_from sep k s).1 a = false.
Proof.
  revert k. induction s as [|c s IH]; [done|]. intros k H.
  simpl in H. apply orb_false_iff in H as [H1 H2]. cbn [split_from].
  destruct k as [|k]; [|by apply IH].
  destruct (startswith (String c s) sep).
  - by destruct (split_from sep _ s).
  - specialize (IH O H2). destruct (split_from sep O s). simpl in *.
    by rewrite H1, IH.
Qed.

Lemma first_piece_char_in s sep a :
  char_in s a = false → char_in (first_piece s sep) a = false.
Proof. apply split_from_char_in. Qed.

Lemma first_piece_no_char (s : string) (a : ascii) :
  char_in (first_piece s (String a EmptyString)) a = false.
Proof.
  induction s as [|c s IH]; [done|].
  rewrite first_piece_cons. cbn [startswith].
  rewrite ?startswith_empty, andb_true_r.
  destruct (Ascii.eqb a c) eqn:Hac; [done|]. simpl.
  by rewrite Ascii.eqb_sym, Hac, IH.
Qed.

Lemma replace_from_char_in old k s a :
  char_in s a = false → char_in (replace_from old EmptyString k s) a = false.
Proof.
  revert k. induction s as [|c s IH]; [done|]. intros k H.
  simpl in H. apply orb_false_iff in H as [H1 H2]. cbn [replace_from].
  destruct k as [|k]; [|by apply IH].
  destruct (startswith (String c s) old).
  - rewrite app_empty_l. by apply IH.
  - simpl. by rewrite H1, IH.
Qed.

Lemma replace_char_in s old a :
  char_in s a = false → char_in (replace s old EmptyString) a = false.
Proof.
  destruct old as [|b old]; simpl.
  - by rewrite replace_empty_empty.
  - apply replace_from_char_in.
Qed.

End PyStrFacts.

(** * The title cleaning (C3) *)

Section CleanTitle.

Import PyStr.

(** A title on which none of the five steps has anything to remove is left
    as it is. *)
Lemma clean_title_fixed (uploader t : string) :
  contains t uploader = false →
  char_in t "[" = false →
  contains t "(Official" = false →
  contains t "(Visual)" = false →
  strip t = t →
  strip_chars t STRIP_CHARS = t →
  clean_title uploader t = t.
Proof.
  intros Hu Hb Ho Hv Hs Hc. unfold clean_title. rewrite Hu.
  rewrite <- contains_char in Hb.
  rewrite !item0_split, (first_piece_no_sep t "["), Hs by done.
  rewrite (first_piece_no_sep t "(Official"), Hs by done.
  by rewrite replace_no_old, Hs.
Qed.

Lemma clean_title_no_bracket (uploader raw_title : string) :
  char_in (clean_title uploader raw_title) "[" = false.
Proof.
  unfold clean_title, strip_chars, strip.
  apply strip_with_char_in, strip_with_char_in, replace_char_in.
  rewrite item0_split. apply strip_with_char_in, first_piece_char_in.
  rewrite item0_split. apply strip_with_char_in, first_piece_no_char.
Qed.

Lemma clean_title_stripped (uploader raw_title : string) :
  strip_chars (clean_title uploader raw_title) STRIP_CHARS
  = clean_title uploader raw_title.
Proof. unfold clean_title, strip_chars. apply strip_with_idem. Qed.

(** C3, as the code has it: cleaning a cleaned title again changes nothing
    when the cleaned title holds neither the uploader's name nor one of the
    two markers and has no white space at its ends. *)
Theorem clean_title_idempotent_on_settled (uploader raw_title : string) :
  contains (clean_title uploader raw_title) uploader = false →
  contains (clean_title uploader raw_title) "(Official" = false →
  contains (clean_title uploader raw_title) "(Visual)" = false →
  strip (clean_title uploader raw_title) = clean_title uploader raw_title →
  clean_title uploader (clean_title uploader raw_title)
  = clean_title uploader raw_title.
Proof.
  intros Hu Ho Hv Hs. apply clean_title_fixed; try done.
  - apply clean_title_no_bracket.
  - apply clean_title_stripped.
Qed.

Lemma clean_title_idempotent_on_settled_witness :
  clean_title "Artist" "Artist - Song [Official Video]" = "Song" ∧
  clean_title "Artist" (clean_title "Artist" "Artist - Song [Official Video]")
  = clean_title "Artist" "Artist - Song [Official Video]".
Proof.
  split; [reflexivity|].
  apply (clean_title_idempotent_on_settled "Artist"
           "Artist - Song [Official Video]"); reflexivity.
Defined.

(** C3 as stated fails: a tab before a trailing dash survives the first
    cleaning, which strips the dash after the white space, and is removed by
    the second. *)
Lemma clean_title_not_idempotent :
  clean_title "Unknown" ("Song" +:+ String TAB "-")
  = "Song" +:+ String TAB EmptyString ∧
  clean_title "Unknown" (clean_title "Unknown" ("Song" +:+ String TAB "-"))
  = "Song" ∧
  clean_title "Unknown" (clean_title "Unknown" ("Song" +:+ String TAB "-"))
  ≠ clean_title "Unknown" ("Song" +:+ String TAB "-").
Proof. split; [reflexivity|]. split; [reflexivity|]. discriminate. Qed.

(** Removing the uploader's name can also put a new occurrence of it
    together. *)
Example clean_title_uploader_twice :
  clean_title "ab" "aabb" = "ab" ∧ clean_title "ab" "ab" = EmptyString.
Proof. split; reflexivity. Qed.

End CleanTitle.

(** * The file name of the tagged file (C8) and the stripped URL (C9) *)

Section Names.

Import PyStr.

Lemma replace_char (s : string) (a b : ascii) :
  replace s (String a EmptyString) (String b EmptyString) = subst_char a b s.
Proof.
  unfold replace. induction s as [|c s IH]; [done|].
  cbn [replace_from startswith]. rewrite ?startswith_empty, andb_true_r.
  cbn [String.length Nat.pred]. rewrite IH, Ascii.eqb_sym. simpl.
  by destruct (Ascii.eqb c a).
Qed.

Lemma subst_char_gone (s : string) (a b : ascii) :
  a ≠ b → char_in (subst_char a b s) a = false.
Proof.
  intros Hab. induction s as [|c s IH]; [done|]. simpl. rewrite IH, orb_false_r.
  destruct (Ascii.eqb c a) eqn:Hc; [|done].
  apply Ascii.eqb_neq. congruence.
Qed.

Lemma new_name_eq (artist song_title : string) :
  new_name artist song_title
  = (subst_char "/" "_" artist +:+ " - "
     +:+ balance_paren (subst_char "/" "_" song_title)) +:+ ".m4a".
Proof.
  unfold new_name, balance_paren.
  rewrite !(replace_char _ "/" "_"), !contains_char.
  by rewrite !app_assoc_str.
Qed.

(** ** The stem and the suffix of a name that ends with an extension *)

Lemma rfind_dot_ext (x e : string) :
  PyPath.rfind_dot e = None →
  PyPath.rfind_dot (x +:+ String "." e) = Some (String.length x).
Proof.
  intros He. induction x as [|c x IH].
  - rewrite app_empty_l. simpl. by rewrite He.
  - rewrite app_cons. simpl. by rewrite IH.
Qed.

Lemma take_app (x y : string) : take (String.length x) (x +:+ y) = x.
Proof. induction x as [|c x IH]; [by destruct y|]. rewrite app_cons. simpl. by rewrite IH. Qed.

Lemma drop_app (x y : string) : PyPath.drop (String.length x) (x +:+ y) = y.
Proof. induction x as [|c x IH]; [by destruct y|]. by rewrite app_cons. Qed.

Lemma suffix_index_ext (x e : string) :
  x ≠ EmptyString → e ≠ EmptyString → PyPath.rfind_dot e = None →
  PyPath.suffix_index (x +:+ String "." e) = Some (String.length x).
Proof.
  intros Hx He Hd. unfold PyPath.suffix_index. rewrite rfind_dot_ext by done.
  rewrite app_length_str. simpl String.length.
  destruct x as [|c x]; [done|]. destruct e as [|d e]; [done|].
  simpl String.length.
  replace (_ && _) with true; [done|].
  symmetry. apply andb_true_iff. split.
  - by apply Nat.ltb_lt; lia.
  - apply Nat.ltb_lt. lia.
Qed.

Lemma stem_ext (d x e : string) :
  x ≠ EmptyString → e ≠ EmptyString → PyPath.rfind_dot e = None →
  PyPath.stem {| parent := d; name := x +:+ String "." e |} = x.
Proof.
  intros. unfold PyPath.stem. simpl name.
  rewrite suffix_index_ext by done. apply take_app.
Qed.

Lemma suffix_ext (d x e : string) :
  x ≠ EmptyString → e ≠ EmptyString → PyPath.rfind_dot e = None →
  PyPath.suffix {| parent := d; name := x +:+ String "." e |} = String "." e.
Proof.
  intros. unfold PyPath.suffix. simpl name.
  rewrite suffix_index_ext by done. apply drop_app.
Qed.

Lemma with_suffix_ext (d x e new_suffix : string) :
  x ≠ EmptyString → e ≠ EmptyString → PyPath.rfind_dot e = None →
  PyPath.with_suffix {| parent := d; name := x +:+ String "." e |} new_suffix
  = {| parent := d; name := x +:+ new_suffix |}.
Proof.
  intros. unfold PyPath.with_suffix. rewrite suffix_ext by done.
  simpl parent. simpl name. f_equal.
  rewrite app_length_str.
  replace (String.length x + String.length (String "." e) -
           String.length (String "." e))%nat with (String.length x) by lia.
  by rewrite take_app.
Qed.

Lemma app_not_empty (s t : string) : t ≠ EmptyString → s +:+ t ≠ EmptyString.
Proof. intros Ht. destruct s; [done|]. by rewrite app_cons. Qed.

Lemma base_name_not_empty (a t : string) : a +:+ " - " +:+ t ≠ EmptyString.
Proof. apply app_not_empty. done. Qed.

(** C8: the namer replaces every slash of the artist and of the title by an
    underscore, closes a parenthesis left open, and names the file
    "artist - title.m4a", whose stem is "artist - title"; for "A/B" and
    "Song (Live" the stem is "A_B - Song (Live)". *)
Theorem new_name_spec (artist song_title : string) (p : Path) :
  new_name artist song_title
  = (subst_char "/" "_" artist +:+ " - "
     +:+ balance_paren (subst_char "/" "_" song_title)) +:+ ".m4a" ∧
  char_in (subst_char "/" "_" artist) "/" = false ∧
  char_in (subst_char "/" "_" song_title) "/" = false ∧
  PyPath.stem (PyPath.sibling p (new_name artist song_title))
  = subst_char "/" "_" artist +:+ " - "
    +:+ balance_paren (subst_char "/" "_" song_title) ∧
  PyPath.suffix (PyPath.sibling p (new_name artist song_title)) = ".m4a" ∧
  new_name "A/B" "Song (Live" = "A_B - Song (Live).m4a" ∧
  PyPath.stem (PyPath.sibling p (new_name "A/B" "Song (Live"))
  = "A_B - Song (Live)".
Proof.
  split; [apply new_name_eq|].
  split; [by apply subst_char_gone|].
  split; [by apply subst_char_gone|].
  unfold PyPath.sibling. rewrite new_name_eq.
  split; [apply stem_ext; try done; apply base_name_not_empty|].
  split; [apply suffix_ext; try done; apply base_name_not_empty|].
  split; reflexivity.
Qed.

Lemma first_piece_spec (s sep : string) :
  sep ≠ EmptyString → prefix_before_first sep s (first_piece s sep).
Proof.
  intros Hsep. induction s as [|c s IH].
  - right. split; [done|]. intros p' r' H.
    destruct p'; [|done]. rewrite app_empty_l in H.
    destruct sep; [done|]. by rewrite app_cons in H.
  - rewrite first_piece_cons.
    destruct (startswith (String c s) sep) eqn:Hst.
    + left. apply startswith_app in Hst as [r Hr]. exists r.
      split; [done|]. intros; simpl; lia.
    + assert (Hno : ∀ r', String c s ≠ sep +:+ r').
      { intros r' H. assert (startswith (String c s) sep = true) as Ht
          by (apply startswith_app; eauto). congruence. }
      destruct IH as [(r & Hr & Hmin)|[Hp Hnone]].
      * left. exists r. split; [by rewrite app_cons, <- Hr|].
        intros [|c' p'] r' H.
        { rewrite app_empty_l in H. by apply Hno in H. }
        rewrite app_cons in H. injection H as _ H. simpl.
        apply Hmin in H. lia.
      * right. rewrite Hp. split; [done|].
        intros [|c' p'] r' H.
        { rewrite app_empty_l in H. by apply Hno in H. }
        rewrite app_cons in H. injection H as _ H. by apply Hnone in H.
Qed.

End Names.

(** * Runs of [process_entry] and [job] *)

#[local] Set Warnings "-clear-no-such-hyp".

Ltac run :=
  repeat progress
    (unfold mbind, M_bind, mret, M_ret, try_except, finally, emit, raise,
       modify, path_exists, run_io, run_ffmpeg, recognize_track, unlink,
       rename, requests_get, update_progress, finish_bar;
     cbn [negb app fst snd temp_encode recognition temp_unlink mp4_open
          cover_get mp4_save rename_file convert source_unlink no_track
          get_track PyStr.truthy]).

Section Stages.

Implicit Types (entry : Entry) (w : World) (fs : gset Path) (l : list Event).

(** ** The recognition stage *)

Lemma recognition_stage_spec (d t : Path) w fs :
  ∃ fs' l,
    recognition_stage d t w fs = (Ret (stage_result w), fs', l) ∧
    progress l = [96] ∧
    Forall (stage_event d t) l ∧
    (temp_unlink w = IoOk → t ∉ fs') ∧
    (∀ p, p ≠ t → p ∈ fs' ↔ p ∈ fs).
Proof.
  unfold recognition_stage, stage_result, stage_event.
  destruct w as [te rc tu ? ? ? ? ? ?].
  destruct te as [|e []], rc as [r|e'], tu as [|e'']; run;
    case_bool_decide; run; eexists _, _;
    (split; [reflexivity|]); (split; [reflexivity|]);
    (split; [repeat constructor; tauto|]); (split; [try done; set_solver|]);
    set_solver.
Qed.

(** ** Tagging and renaming *)

Lemma tag_and_rename_no_track entry w (result : Result) fs :
  no_track result = true →
  tag_and_rename entry w result fs
  = (Exc (open_error w), fs, [OpenMP4 (filename entry)]).
Proof.
  intros Hr. unfold tag_and_rename, open_error. rewrite Hr.
  destruct (mp4_open w); by run.
Qed.

Ltac pick_event :=
  first [ left; reflexivity
        | right; left; eexists; reflexivity
        | right; right; left; eexists; reflexivity
        | right; right; right; reflexivity ].

Lemma tag_and_rename_spec entry w (result : Result) fs :
  ∃ x fs' l,
    tag_and_rename entry w result fs = (x, fs', l) ∧
    progress l = [] ∧
    Forall (tag_event entry result) l ∧
    (fs' = fs ∨
     fs' = {[new_path entry result]} ∪ (fs ∖ {[filename entry]})) ∧
    match x with
    | Ret (Some p) =>
        p = new_path entry result ∧ p ∈ fs' ∧ no_track result = false
    | Ret None => no_track result = false
    | Exc _ => fs' = fs
    end.
Proof.
  unfold tag_and_rename, tag_event.
  destruct (mp4_open w), (no_track result) eqn:Hr,
    (get_cover_url (get_track result)) as [[|c url]|], (cover_get w),
    (mp4_save w), (rename_file w),
    (PyPath.below_out_dir (new_path entry result)); run;
    eexists _, _, _; (split; [reflexivity|]); (split; [reflexivity|]);
    (split; [repeat (constructor; [pick_event|]); constructor|]);
    (split; [first [left; reflexivity | right; reflexivity]|]);
    first [ reflexivity
          | split; [reflexivity|]; split; [|reflexivity];
            apply elem_of_union_l, elem_of_singleton; reflexivity ].
Qed.

(** With a track and a container that opens, the resolved tags are given
    to [audio.save()], whatever it does then. *)
Lemma tag_and_rename_saves entry w (t : Track) fs :
  mp4_open w = IoOk →
  ∃ cover, In (Save (filename entry)
                 (resolve_tags entry (Some t)
                    (song_title_of entry (ResultTrack t))
                    (artist_of entry (ResultTrack t)) cover))
              (tag_and_rename entry w (ResultTrack t) fs).2.
Proof.
  intros Ho. unfold tag_and_rename. rewrite Ho.
  destruct (get_cover_url (get_track (ResultTrack t))) as [[|c url]|],
    (cover_get w), (mp4_save w), (rename_file w),
    (PyPath.below_out_dir (new_path entry (ResultTrack t))); run;
    eexists; cbn; eauto 6.
Qed.

(** A failed rename leaves the disk as it is and yields no path. *)
Lemma tag_and_rename_rename_fails entry w (t : Track) fs (e : string) :
  mp4_open w = IoOk → mp4_save w = IoOk → rename_file w = IoRaise e →
  ∃ l, tag_and_rename entry w (ResultTrack t) fs = (Ret None, fs, l).
Proof.
  intros Ho Hs Hr. unfold tag_and_rename. rewrite Ho, Hs, Hr.
  destruct (get_cover_url (get_track (ResultTrack t))) as [[|c url]|],
    (cover_get w); run; by eexists.
Qed.

(** ** The temporary MP3 is not the renamed file *)

Lemma last_char_app (s t : string) :
  t ≠ EmptyString → last_char (s +:+ t) = last_char t.
Proof.
  intros Ht. induction s as [|c s IH]; [done|].
  rewrite app_cons. simpl. rewrite IH.
  destruct t as [|d t]; [done|]. simpl. by destruct (last_char t).
Qed.

Lemma temp_path_last entry : last_char (name (temp_path entry)) = Some "3"%char.
Proof.
  unfold temp_path, PyPath.with_suffix. simpl name.
  destruct (PyPath.suffix (filename entry)); by rewrite last_char_app.
Qed.

Lemma new_path_last entry (result : Result) :
  last_char (name (new_path entry result)) = Some "a"%char.
Proof.
  unfold new_path, PyPath.sibling. simpl name.
  rewrite new_name_eq. by rewrite last_char_app.
Qed.

Lemma temp_path_not_new_path entry (result : Result) :
  temp_path entry ≠ new_path entry result.
Proof.
  intros H. pose proof (temp_path_last entry) as H1.
  rewrite H, new_path_last in H1. discriminate.
Qed.

(** ** [process_entry] *)

Lemma process_entry_missing entry w fs :
  filename entry ∉ fs → process_entry entry w fs = (Ret None, fs, []).
Proof.
  intros H. unfold process_entry. run.
  rewrite bool_decide_eq_false_2 by done. by run.
Qed.

Lemma process_entry_present entry w fs fs1 l1 :
  filename entry ∈ fs →
  recognition_stage (filename entry) (temp_path entry) w fs
  = (Ret (stage_result w), fs1, l1) →
  process_entry entry w fs
  = let '(x, fs2, l2) := tag_and_rename entry w (stage_result w) fs1 in
    (x, fs2, UpdateProgress 92 :: l1 ++ l2).
Proof.
  intros H Hs. unfold process_entry. run.
  rewrite bool_decide_eq_true_2 by done. run. rewrite Hs.
  by destruct (tag_and_rename _ _ _ _) as [[x fs2] l2].
Qed.

Lemma process_entry_spec entry w fs :
  ∃ x fs' l,
    process_entry entry w fs = (x, fs', l) ∧
    (progress l = [] ∨ progress l = [92; 96]) ∧
    Forall (entry_event entry w) l ∧
    (filename entry ∈ fs → temp_unlink w = IoOk → temp_path entry ∉ fs') ∧
    match x with
    | Ret (Some p) => p = new_path entry (stage_result w) ∧ p ∈ fs'
    | _ => True
    end.
Proof.
  destruct (decide (filename entry ∈ fs)) as [Hin|Hin].
  - destruct (recognition_stage_spec (filename entry) (temp_path entry) w fs)
      as (fs1 & l1 & Hs & Hp1 & He1 & Ht1 & _).
    destruct (tag_and_rename_spec entry w (stage_result w) fs1)
      as (x & fs2 & l2 & Ht & Hp2 & He2 & Hfs & Hx).
    exists x, fs2, (UpdateProgress 92 :: l1 ++ l2).
    split; [by rewrite (process_entry_present _ _ _ fs1 l1), Ht|].
    split; [right; unfold progress in *; simpl; by rewrite omap_app, Hp1, Hp2|].
    split.
    { constructor; [by left|]. apply Forall_app. split.
      - eapply Forall_impl; [done|]. intros ev ?. right. by left.
      - eapply Forall_impl; [done|]. intros ev ?. right. by right. }
    split.
    { intros _ Hu. specialize (Ht1 Hu).
      pose proof (temp_path_not_new_path entry (stage_result w)).
      destruct Hfs as [->| ->]; set_solver. }
    destruct x as [[p|]|]; [|done..]. by destruct Hx as (? & ? & _).
  - exists (Ret None), fs, []. rewrite process_entry_missing by done.
    split; [done|]. split; [by left|]. split; [constructor|]. done.
Qed.

(** ** One turn of the loop *)

Lemma entry_step_missing (fmt : Format) (ff : option string) entry w fs :
  filename entry ∉ fs →
  entry_step fmt ff (entry, w) fs = (Ret (Next ff), fs, [UpdateProgress 90]).
Proof.
  intros H. unfold entry_step. run. rewrite process_entry_missing by done.
  by run.
Qed.

Lemma entry_step_raises (fmt : Format) (ff : option string) entry w fs
    (e : string) fs1 l1 :
  process_entry entry w fs = (Exc e, fs1, l1) →
  entry_step fmt ff (entry, w) fs
  = (Ret Return, fs1, UpdateProgress 90 :: l1 ++ failed "Tagging Error: " e).
Proof. intros H. unfold entry_step, failed. run. rewrite H. by run. Qed.

Lemma entry_step_no_path (fmt : Format) (ff : option string) entry w fs fs1 l1 :
  process_entry entry w fs = (Ret None, fs1, l1) →
  entry_step fmt ff (entry, w) fs = (Ret (Next ff), fs1, UpdateProgress 90 :: l1).
Proof.
  intros H. unfold entry_step. run. rewrite H. run. by rewrite app_nil_r.
Qed.

Lemma entry_step_m4a (ff : option string) entry w fs (p : Path) fs1 l1 :
  process_entry entry w fs = (Ret (Some p), fs1, l1) →
  entry_step m4a ff (entry, w) fs
  = (Ret (Next (Some (PyPath.stem p))), fs1, UpdateProgress 90 :: l1).
Proof.
  intros H. unfold entry_step. run. rewrite H. run.
  rewrite bool_decide_eq_false_2 by naive_solver. by rewrite app_nil_r.
Qed.

Lemma entry_step_convert (fmt : Format) (ff : option string) entry w fs
    (p : Path) fs1 l1 :
  fmt ≠ m4a →
  process_entry entry w fs = (Ret (Some p), fs1, l1) →
  entry_step fmt ff (entry, w) fs
  = match convert w, source_unlink w with
    | ProcOk, IoOk =>
        (Ret (Next (Some (PyPath.stem (converted_path fmt p)))),
         ({[converted_path fmt p]} ∪ fs1) ∖ {[p]},
         UpdateProgress 90 :: l1
           ++ [FfmpegConvert p (converted_path fmt p); Unlink p])
    | ProcOk, IoRaise e =>
        (Ret Return, {[converted_path fmt p]} ∪ fs1,
         UpdateProgress 90 :: l1
           ++ [FfmpegConvert p (converted_path fmt p); Unlink p]
           ++ failed "Convert Error: " e)
    | ProcRaise e wrote, _ =>
        (Ret Return, if wrote then {[converted_path fmt p]} ∪ fs1 else fs1,
         UpdateProgress 90 :: l1
           ++ [FfmpegConvert p (converted_path fmt p)]
           ++ failed "Convert Error: " e)
    end.
Proof.
  intros Hf H. unfold entry_step, failed, converted_path. run. rewrite H. run.
  rewrite bool_decide_eq_true_2 by done.
  destruct (convert w) as [|e []], (source_unlink w); by run.
Qed.

Lemma entry_event_plain entry w (ev : Event) :
  entry_event entry w ev → is_finish ev = false ∧ is_convert ev = false.
Proof.
  unfold entry_event, stage_event, tag_event. naive_solver.
Qed.

(** What every turn of the loop does: it never raises; it ends the job
    only after a failure was shown, which is then the last thing it did;
    it reports 90, then 92 and 96 if the file is there, then 100 if it
    fails; and it runs the conversion only for a format other than m4a. *)
Lemma entry_step_spec (fmt : Format) (ff : option string) entry w fs :
  ∃ flow fs' l mid,
    entry_step fmt ff (entry, w) fs = (Ret flow, fs', l) ∧
    (mid = [] ∨ mid = [92; 96]) ∧
    (fmt = m4a → Forall (λ ev, is_convert ev = false) l) ∧
    match flow with
    | Next _ =>
        progress l = 90 :: mid ∧ Forall (λ ev, is_finish ev = false) l
    | Return =>
        progress l = 90 :: mid ++ [100] ∧
        ∃ l0 label e, l = l0 ++ failed label e ∧
                      Forall (λ ev, is_finish ev = false) l0
    end.
Proof.
  destruct (process_entry_spec entry w fs)
    as (x & fs1 & l1 & Hpe & Hp & Hev & _ & _).
  assert (Hf : Forall (λ ev, is_finish ev = false) l1).
  { eapply Forall_impl; [exact Hev|].
    intros ev Hx. apply (entry_event_plain _ _ _ Hx). }
  assert (Hc : Forall (λ ev, is_convert ev = false) l1).
  { eapply Forall_impl; [exact Hev|].
    intros ev Hx. apply (entry_event_plain _ _ _ Hx). }
  assert (Hmid : ∃ mid, (mid = [] ∨ mid = [92; 96]) ∧ progress l1 = mid)
    by (destruct Hp; eauto).
  destruct Hmid as (mid & Hmid & Hpm).
  destruct x as [[p|]|e].
  - destruct (decide (fmt = m4a)) as [->|Hfmt].
    + eexists _, _, _, mid. rewrite (entry_step_m4a _ _ _ _ p fs1 l1) by done.
      split; [done|]. split; [done|]. split; [by constructor|].
      split; [simpl; by rewrite <- Hpm|by constructor].
    + rewrite (entry_step_convert _ _ _ _ _ p fs1 l1) by done.
      destruct (convert w) as [|e wrote], (source_unlink w) as [|e'];
        eexists _, _, _, mid; (split; [done|]); (split; [done|]);
        (split; [done|]).
      * split; [unfold progress in *; simpl; rewrite omap_app, Hpm; simpl;
                by rewrite app_nil_r|].
        constructor; [done|]. apply Forall_app. by repeat constructor.
      * split; [unfold progress in *; simpl; by rewrite omap_app, Hpm|].
        eexists (UpdateProgress 90 :: l1 ++ [_; _]), _, _.
        split; [simpl; by rewrite <- app_assoc|].
        constructor; [done|]. apply Forall_app. by repeat constructor.
      * split; [unfold progress in *; simpl; by rewrite omap_app, Hpm|].
        eexists (UpdateProgress 90 :: l1 ++ [_]), _, _.
        split; [simpl; by rewrite <- app_assoc|].
        constructor; [done|]. apply Forall_app. by repeat constructor.
      * split; [unfold progress in *; simpl; by rewrite omap_app, Hpm|].
        eexists (UpdateProgress 90 :: l1 ++ [_]), _, _.
        split; [simpl; by rewrite <- app_assoc|].
        constructor; [done|]. apply Forall_app. by repeat constructor.
  - eexists _, _, _, mid. rewrite (entry_step_no_path _ _ _ _ _ fs1 l1) by done.
    split; [done|]. split; [done|]. split; [by constructor|].
    split; [simpl; by rewrite <- Hpm|by constructor].
  - eexists _, _, _, mid. rewrite (entry_step_raises _ _ _ _ _ e fs1 l1) by done.
    split; [done|]. split; [done|].
    split; [intros _; constructor; [done|]; apply Forall_app;
            by repeat constructor|].
    split; [unfold progress in *; simpl; by rewrite omap_app, Hpm|].
    eexists (UpdateProgress 90 :: l1), _, _. split; [done|]. by constructor.
Qed.

(** ** The loop over the entries *)

Lemma entries_loop_cons (fmt : Format) (ff : option string)
    (ew : Entry * World) (rest : list (Entry * World)) fs :
  entries_loop fmt ff (ew :: rest) fs
  = match entry_step fmt ff ew fs with
    | (Ret (Next ff'), fs1, l1) =>
        let '(r, fs2, l2) := entries_loop fmt ff' rest fs1 in
        (r, fs2, l1 ++ l2)
    | (Ret Return, fs1, l1) => (Ret Return, fs1, l1)
    | (Exc e, fs1, l1) => (Exc e, fs1, l1)
    end.
Proof.
  cbn [entries_loop]. run.
  destruct (entry_step fmt ff ew fs) as [[[[ff'|]|e] fs1] l1]; try done.
  by rewrite app_nil_r.
Qed.

Lemma entries_loop_app (fmt : Format) (ff ff1 : option string)
    (before rest : list (Entry * World)) fs fs1 l1 :
  entries_loop fmt ff before fs = (Ret (Next ff1), fs1, l1) →
  entries_loop fmt ff (before ++ rest) fs
  = let '(r, fs2, l2) := entries_loop fmt ff1 rest fs1 in (r, fs2, l1 ++ l2).
Proof.
  revert ff fs l1. induction before as [|[entry w] before IH]; intros ff fs l1.
  - cbn [entries_loop]. run. intros [= -> -> <-]. simpl.
    by destruct (entries_loop _ _ _ _) as [[r fs2] l2].
  - rewrite <- app_comm_cons, !entries_loop_cons.
    destruct (entry_step fmt ff (entry, w) fs) as [[[[ff'|]|e] fsa] la];
      [|done..].
    destruct (entries_loop fmt ff' before fsa) as [[r fsb] lb] eqn:Hb.
    intros [= -> -> <-]. rewrite (IH _ _ _ Hb).
    destruct (entries_loop fmt ff1 rest fs1) as [[r fs2] l2].
    by rewrite app_assoc.
Qed.

Lemma entries_loop_spec (fmt : Format) (ff : option string)
    (entries : list (Entry * World)) fs :
  ∃ flow fs' l,
    entries_loop fmt ff entries fs = (Ret flow, fs', l) ∧
    (fmt = m4a → Forall (λ ev, is_convert ev = false) l) ∧
    match flow with
    | Next _ => Forall (λ ev, is_finish ev = false) l
    | Return =>
        ∃ l0 label e, l = l0 ++ failed label e ∧
                      Forall (λ ev, is_finish ev = false) l0
    end.
Proof.
  revert ff fs. induction entries as [|[entry w] rest IH]; intros ff fs.
  - exists (Next ff), fs, []. by repeat split.
  - rewrite entries_loop_cons.
    destruct (entry_step_spec fmt ff entry w fs)
      as (flow & fs1 & l1 & mid & -> & _ & Hc & Hflow).
    destruct flow as [ff'|].
    + destruct (IH ff' fs1) as (flow & fs2 & l2 & -> & Hc2 & Hflow2).
      destruct Hflow as [_ Hf]. exists flow, fs2, (l1 ++ l2).
      split; [done|]. split; [intros ?; apply Forall_app; auto|].
      destruct flow as [ff''|].
      * by apply Forall_app.
      * destruct Hflow2 as (l0 & label & e & -> & Hf0).
        exists (l1 ++ l0), label, e. split; [by rewrite app_assoc|].
        by apply Forall_app.
    + exists Return, fs1, l1. split; [done|]. split; [done|].
      by destruct Hflow as [_ ?].
Qed.

(** ** The job *)

Lemma run_hooks_events (calls : list HookCall) fs :
  run_hooks calls fs = (Ret (), fs, hook_events calls).
Proof.
  induction calls as [|d calls IH]; [done|].
  cbn [run_hooks]. run. destruct d as [[] percent| |]; cbn [hook]; run;
    by rewrite IH.
Qed.

Lemma extract_info_run (url outtmpl : string) (f : Fetch) fs :
  extract_info url outtmpl f fs
  = (fetched f, written f ∪ fs, ExtractInfo url outtmpl :: hook_events (hook_calls f)).
Proof.
  unfold extract_info. run. rewrite run_hooks_events.
  run. destruct (fetched f); run; by rewrite !app_nil_r.
Qed.

Lemma job_download_error (allow_playlist : bool) (fmt : Format)
    (url : string) (f : Fetch) fs (e : string) :
  fetched f = Exc e →
  job allow_playlist fmt url f fs
  = (Ret (), written f ∪ fs,
     job_prefix allow_playlist url f
       ++ failed "Download Error: " e
       ++ [ShowError "Download Error" ("Error downloading video: " +:+ e)]).
Proof.
  intros H. unfold job, job_prefix, failed. fold (url_local allow_playlist url).
  run. rewrite extract_info_run, H. run. by rewrite !app_nil_r.
Qed.

Lemma job_no_info (allow_playlist : bool) (fmt : Format)
    (url : string) (f : Fetch) fs :
  fetched f = Ret InfoNone →
  job allow_playlist fmt url f fs
  = (Exc "argument of type 'NoneType' is not iterable", written f ∪ fs,
     job_prefix allow_playlist url f).
Proof.
  intros H. unfold job, job_prefix. fold (url_local allow_playlist url).
  run. rewrite extract_info_run, H. run. by rewrite !app_nil_r.
Qed.

Lemma job_entries (allow_playlist : bool) (fmt : Format)
    (url : string) (f : Fetch) fs (info : Info) (flow : Flow) fs1 l1 :
  fetched f = Ret info → info ≠ InfoNone →
  entries_loop fmt None (fetched_entries f) (written f ∪ fs)
  = (Ret flow, fs1, l1) →
  job allow_playlist fmt url f fs
  = (Ret (), fs1,
     job_prefix allow_playlist url f ++ l1
       ++ match flow with Next ff => succeeded ff | Return => [] end).
Proof.
  intros H Hi. unfold fetched_entries. rewrite H. intros Hl.
  unfold job, job_prefix, succeeded. fold (url_local allow_playlist url).
  run. rewrite extract_info_run, H. run.
  destruct info as [|ew|entries]; [done|..]; run; rewrite Hl; run;
    destruct flow; run; by rewrite ?app_nil_r, <- ?app_assoc.
Qed.

Lemma reaches_fetched (fmt : Format) (f : Fetch) fs before ew after ff fs1 l1 :
  reaches fmt f fs before ew after ff fs1 l1 →
  ∃ info, fetched f = Ret info ∧ info ≠ InfoNone.
Proof.
  intros [H _]. unfold fetched_entries in H.
  destruct (fetched f) as [[| |]|]; try by destruct before.
  all: by eexists.
Qed.

(** A turn that ends the job ends it with what it has just shown. *)
Lemma job_stops_at (allow_playlist : bool) (fmt : Format) (url : string)
    (f : Fetch) fs before ew after ff fs1 l1 fs2 l2 :
  reaches fmt f fs before ew after ff fs1 l1 →
  entry_step fmt ff ew fs1 = (Ret Return, fs2, l2) →
  job allow_playlist fmt url f fs
  = (Ret (), fs2, job_prefix allow_playlist url f ++ l1 ++ l2).
Proof.
  intros Hr Hs. destruct (reaches_fetched _ _ _ _ _ _ _ _ _ Hr) as (info & Hi & Hn).
  destruct Hr as [He Hl].
  rewrite (job_entries _ _ _ _ _ info Return fs2 (l1 ++ l2)); try done.
  - by rewrite app_nil_r.
  - rewrite He, (entries_loop_app _ _ _ _ _ _ _ _ Hl), entries_loop_cons.
    by rewrite Hs.
Qed.

(** After the last entry the job reports success with the file name left
    by the loop. *)
Lemma job_finishes_after (allow_playlist : bool) (fmt : Format) (url : string)
    (f : Fetch) fs before ew ff fs1 l1 ff' fs2 l2 :
  reaches fmt f fs before ew [] ff fs1 l1 →
  entry_step fmt ff ew fs1 = (Ret (Next ff'), fs2, l2) →
  job allow_playlist fmt url f fs
  = (Ret (), fs2, job_prefix allow_playlist url f ++ l1 ++ l2 ++ succeeded ff').
Proof.
  intros Hr Hs. destruct (reaches_fetched _ _ _ _ _ _ _ _ _ Hr) as (info & Hi & Hn).
  destruct Hr as [He Hl].
  rewrite (job_entries _ _ _ _ _ info (Next ff') fs2 (l1 ++ l2)); try done.
  - by rewrite <- app_assoc.
  - rewrite He, (entries_loop_app _ _ _ _ _ _ _ _ Hl), entries_loop_cons.
    rewrite Hs. cbn [entries_loop]. run. by rewrite app_nil_r.
Qed.

(** ** The names of the tagged and of the converted file *)

Lemma app_inj_length (s s' t t' : string) :
  String.length s = String.length s' → s +:+ t = s' +:+ t' → s = s' ∧ t = t'.
Proof.
  revert s'. induction s as [|c s IH]; intros [|c' s'] Hl H; try done.
  rewrite !app_cons in H. injection H as -> H. simpl in Hl.
  destruct (IH s') as [-> ->]; [lia|done|done].
Qed.

Lemma new_path_name entry (result : Result) :
  new_path entry result
  = {| parent := parent (filename entry);
       name := base_name entry result +:+ String "." "m4a" |}.
Proof. unfold new_path, PyPath.sibling, base_name. by rewrite new_name_eq. Qed.

Lemma format_str_ext (fmt : Format) :
  format_str fmt ≠ EmptyString ∧ PyPath.rfind_dot (format_str fmt) = None.
Proof. by destruct fmt. Qed.

Lemma base_name_ne entry (result : Result) : base_name entry result ≠ EmptyString.
Proof. apply base_name_not_empty. Qed.

Lemma converted_path_name entry (result : Result) (fmt : Format) :
  converted_path fmt (new_path entry result)
  = {| parent := parent (filename entry);
       name := base_name entry result +:+ "." +:+ format_str fmt |}.
Proof.
  destruct (format_str_ext fmt) as [Hne Hd].
  pose proof (base_name_ne entry result) as Hb.
  unfold converted_path. rewrite new_path_name.
  by rewrite with_suffix_ext.
Qed.

Lemma stem_converted_path entry (result : Result) (fmt : Format) :
  PyPath.stem (converted_path fmt (new_path entry result))
  = base_name entry result.
Proof.
  destruct (format_str_ext fmt) as [Hne Hd].
  rewrite converted_path_name. apply stem_ext; [apply base_name_ne|done..].
Qed.

Lemma stem_new_path entry (result : Result) :
  PyPath.stem (new_path entry result) = base_name entry result.
Proof. rewrite new_path_name. by apply stem_ext; [apply base_name_ne|..]. Qed.

Lemma converted_path_other entry (result : Result) (fmt : Format) :
  fmt ≠ m4a →
  converted_path fmt (new_path entry result) ≠ new_path entry result.
Proof.
  intros Hf. rewrite converted_path_name, new_path_name. intros [= H].
  apply app_inj_length in H as [_ H]; [|done]. by destruct fmt.
Qed.

End Stages.

(** * The claims about the job *)

Section Claims.

Implicit Types (entry : Entry) (w : World) (fs : gset Path) (l : list Event).

(** ** C10: a missing file *)

(** C10: an entry whose file is not on disk is skipped without any
    external call and without an exception, the loop goes on with the file
    name it had, and a job with this one entry reports success without a
    file name. *)
Theorem missing_file_is_skipped (allow_playlist : bool) (fmt : Format)
    (url : string) (f : Fetch) (ff : option string) entry w fs :
  filename entry ∉ written f ∪ fs →
  process_entry entry w (written f ∪ fs) = (Ret None, written f ∪ fs, []) ∧
  entry_step fmt ff (entry, w) (written f ∪ fs)
  = (Ret (Next ff), written f ∪ fs, [UpdateProgress 90]) ∧
  (fetched f = Ret (InfoSingle (entry, w)) →
   job allow_playlist fmt url f fs
   = (Ret (), written f ∪ fs,
      job_prefix allow_playlist url f ++ [UpdateProgress 90] ++ succeeded None)).
Proof.
  intros H. split; [by apply process_entry_missing|].
  split; [by apply entry_step_missing|]. intros Hf.
  rewrite (job_finishes_after _ _ _ _ _ [] (entry, w) None (written f ∪ fs) []
             None (written f ∪ fs) [UpdateProgress 90]); [done| |].
  - split; [|done]. unfold fetched_entries. by rewrite Hf.
  - by apply entry_step_missing.
Qed.

Lemma missing_file_is_skipped_witness :
  (ex_path ∉ (∅ : gset Path) ∪ ∅) ∧
  job false m4a ex_url
      {| hook_calls := []; written := ∅;
         fetched := Ret (InfoSingle (ex_entry, ex_world)) |} ∅
  = (Ret (), ∅ ∪ ∅,
     [UpdateProgress 5; UpdateProgress 10;
      ExtractInfo "https://x.test/watch?v=abc" OUTTMLP;
      UpdateProgress 90; UpdateProgress 100; FinishBar true None None;
      UpdateProgress 100]).
Proof.
  assert (H : ex_path ∉ (∅ : gset Path) ∪ ∅) by set_solver.
  split; [exact H|].
  apply (missing_file_is_skipped false m4a ex_url
           {| hook_calls := []; written := ∅;
              fetched := Ret (InfoSingle (ex_entry, ex_world)) |}
           None ex_entry ex_world ∅ H).
  reflexivity.
Defined.

(** ** C1: no recognized track *)

Lemma entry_event_no_output entry w (ev : Event) :
  no_track (stage_result w) = true →
  ev = UpdateProgress 90 ∨ ev = UpdateProgress 92
  ∨ stage_event (filename entry) (temp_path entry) ev
  ∨ ev = OpenMP4 (filename entry) →
  no_output ev.
Proof. unfold stage_event, no_output. naive_solver. Qed.

(** C1, as the code has it: when the recognition of an entry that the loop
    reaches, and whose file is on disk, yields no track, the job ends with a
    failure whose message carries the prefix of a tagging error, followed by
    the text of the exception, which is the recognition failure when the
    container could be opened; nothing is saved, renamed or converted for
    the entry, and the disk is as before but for the temporary MP3. *)
Theorem no_track_fails_as_tagging_error (allow_playlist : bool) (fmt : Format)
    (url : string) (f : Fetch) fs before entry w after ff fs1 l1 :
  reaches fmt f fs before (entry, w) after ff fs1 l1 →
  filename entry ∈ fs1 →
  no_track (stage_result w) = true →
  ∃ fs2 l2,
    job allow_playlist fmt url f fs
    = (Ret (), fs2,
       job_prefix allow_playlist url f ++ l1 ++ l2
         ++ failed "Tagging Error: " (open_error w)) ∧
    error_kind ("Tagging Error: " +:+ open_error w) = Some TaggingError ∧
    (mp4_open w = IoOk → open_error w = NO_TRACK_INFO) ∧
    Forall no_output l2 ∧
    (∀ p, p ≠ temp_path entry → p ∈ fs2 ↔ p ∈ fs1).
Proof.
  intros Hr Hin Hno.
  destruct (recognition_stage_spec (filename entry) (temp_path entry) w fs1)
    as (fs2 & ls & Hs & _ & Hev & _ & Hfs).
  pose proof (process_entry_present _ _ _ _ _ Hin Hs) as Hpe.
  rewrite tag_and_rename_no_track in Hpe by done.
  pose proof (entry_step_raises fmt ff _ _ _ _ _ _ Hpe) as Hst.
  exists fs2, (UpdateProgress 90 :: UpdateProgress 92 :: ls
               ++ [OpenMP4 (filename entry)]).
  split.
  { by rewrite (job_stops_at _ _ _ _ _ _ _ _ _ _ _ _ _ Hr Hst). }
  split; [reflexivity|].
  split; [unfold open_error; by intros ->|].
  split; [|done].
  constructor; [apply (entry_event_no_output entry w); auto|].
  constructor; [apply (entry_event_no_output entry w); auto|].
  apply Forall_app. split.
  - eapply Forall_impl; [exact Hev|]. intros ev ?.
    apply (entry_event_no_output entry w); auto.
  - constructor; [|constructor].
    apply (entry_event_no_output entry w); auto.
Qed.

Lemma no_track_fails_as_tagging_error_witness :
  reaches m4a (ex_fetch no_match_world) ∅ [] (ex_entry, no_match_world) []
          None ({[ex_path]} ∪ ∅) [] ∧
  ∃ fs2 l2,
    job false m4a ex_url (ex_fetch no_match_world) ∅
    = (Ret (), fs2,
       job_prefix false ex_url (ex_fetch no_match_world) ++ [] ++ l2
         ++ failed "Tagging Error: " NO_TRACK_INFO).
Proof.
  assert (Hr : reaches m4a (ex_fetch no_match_world) ∅ []
                 (ex_entry, no_match_world) [] None ({[ex_path]} ∪ ∅) [])
    by (split; reflexivity).
  assert (Hin : filename ex_entry ∈ ({[ex_path]} ∪ ∅ : gset Path))
    by (apply elem_of_union_l, elem_of_singleton; reflexivity).
  split; [exact Hr|].
  destruct (no_track_fails_as_tagging_error false m4a ex_url
              (ex_fetch no_match_world) ∅ [] ex_entry no_match_world [] None
              ({[ex_path]} ∪ ∅) [] Hr Hin eq_refl)
    as (fs2 & l2 & Hjob & _).
  exists fs2, l2. exact Hjob.
Defined.

(** C1 as stated fails: the message of a job whose recognition finds no
    track is labelled as a tagging error, not as a recognition error. *)
Lemma no_track_not_labelled_recognition :
  finish_calls (job false m4a ex_url (ex_fetch no_match_world) ∅).2
  = [FinishBar false None
       (Some "Tagging Error: Shazam recognition failed: No track info returned.")]
  ∧ error_kind "Tagging Error: Shazam recognition failed: No track info returned."
    = Some TaggingError
  ∧ error_kind "Tagging Error: Shazam recognition failed: No track info returned."
    ≠ Some RecognitionError.
Proof. split; [by vm_compute|]. split; [reflexivity|discriminate]. Qed.

(** ** C5: a failed rename *)

Lemma temp_path_not_filename entry : temp_path entry ≠ filename entry.
Proof.
  intros H.
  assert (∃ z, name (temp_path entry) = z +:+ ".temp.mp3") as [z Hz].
  { unfold temp_path, PyPath.with_suffix. simpl name.
    destruct (PyPath.suffix (filename entry)); eauto. }
  rewrite H in Hz. unfold temp_path in H.
  destruct (filename entry) as [d n]. simpl in Hz. subst n.
  replace (z +:+ ".temp.mp3") with ((z +:+ ".temp") +:+ String "." "mp3") in H
    by by rewrite app_assoc_str.
  rewrite with_suffix_ext in H; [|by apply app_not_empty|done..].
  injection H as H. apply (f_equal String.length) in H.
  rewrite !app_length_str in H. simpl in H. lia.
Qed.

(** C5, as the code has it: when the rename of the tagged file of the last
    entry raises, [process_entry] returns no path; the file stays on disk
    under its old name, nothing is converted, and the job reports success
    with the file name the loop had before this entry, which is none for
    the first entry. *)
Theorem rename_failure_reports_no_path (allow_playlist : bool) (fmt : Format)
    (url : string) (f : Fetch) fs before entry w ff fs1 l1 (t : Track)
    (e : string) :
  reaches fmt f fs before (entry, w) [] ff fs1 l1 →
  filename entry ∈ fs1 →
  stage_result w = ResultTrack t →
  mp4_open w = IoOk → mp4_save w = IoOk → rename_file w = IoRaise e →
  ∃ fs2 l2,
    process_entry entry w fs1 = (Ret None, fs2, l2) ∧
    job allow_playlist fmt url f fs
    = (Ret (), fs2,
       job_prefix allow_playlist url f ++ l1 ++ (UpdateProgress 90 :: l2)
         ++ succeeded ff) ∧
    filename entry ∈ fs2 ∧
    Forall (λ ev, is_convert ev = false) l2 ∧
    (before = [] → ff = None).
Proof.
  intros Hr Hin Ht Ho Hs He.
  destruct (recognition_stage_spec (filename entry) (temp_path entry) w fs1)
    as (fs2 & ls & Hst & _ & _ & _ & Hfs).
  pose proof (process_entry_present _ _ _ _ _ Hin Hst) as Hpe.
  rewrite Ht in Hpe.
  destruct (tag_and_rename_rename_fails entry w t fs2 e Ho Hs He) as [lt Hlt].
  rewrite Hlt in Hpe.
  exists fs2, (UpdateProgress 92 :: ls ++ lt).
  split; [done|].
  split.
  { apply (job_finishes_after _ _ _ _ _ _ _ _ _ _ _ _ _ Hr).
    by apply entry_step_no_path. }
  split.
  { apply Hfs; [|done]. intros H. by apply (temp_path_not_filename entry). }
  split.
  { destruct (process_entry_spec entry w fs1)
      as (x & fs' & l & Hx & _ & Hev & _). rewrite Hpe in Hx.
    injection Hx as _ _ <-. eapply Forall_impl; [exact Hev|].
    intros ev Hx. apply (entry_event_plain _ _ _ Hx). }
  intros ->. destruct Hr as [_ Hl]. cbn [entries_loop] in Hl.
  by injection Hl as <- _ _.
Qed.

Lemma rename_failure_reports_no_path_witness :
  reaches m4a (ex_fetch rename_fail_world) ∅ [] (ex_entry, rename_fail_world) []
          None ({[ex_path]} ∪ ∅) [] ∧
  ∃ fs2 l2,
    job false m4a ex_url (ex_fetch rename_fail_world) ∅
    = (Ret (), fs2,
       job_prefix false ex_url (ex_fetch rename_fail_world) ++ []
         ++ (UpdateProgress 90 :: l2) ++ succeeded None) ∧
    ex_path ∈ fs2.
Proof.
  assert (Hr : reaches m4a (ex_fetch rename_fail_world) ∅ []
                 (ex_entry, rename_fail_world) [] None ({[ex_path]} ∪ ∅) [])
    by (split; reflexivity).
  assert (Hin : filename ex_entry ∈ ({[ex_path]} ∪ ∅ : gset Path))
    by (apply elem_of_union_l, elem_of_singleton; reflexivity).
  split; [exact Hr|].
  destruct (rename_failure_reports_no_path false m4a ex_url
              (ex_fetch rename_fail_world) ∅ [] ex_entry rename_fail_world
              None ({[ex_path]} ∪ ∅) [] ex_track
              "[Errno 13] Permission denied" Hr Hin eq_refl eq_refl eq_refl
              eq_refl)
    as (fs2 & l2 & _ & Hjob & Hfile & _).
  exists fs2, l2. split; [exact Hjob|exact Hfile].
Defined.

(** C5 as stated fails: the job whose rename raises reports success, but
    with no file name at all, not with the name or the path of the file
    before the rename. *)
Lemma rename_failure_carries_no_path :
  finish_calls (job false m4a ex_url (ex_fetch rename_fail_world) ∅).2
  = [FinishBar true None None] ∧
  finish_calls (job false m4a ex_url (ex_fetch rename_fail_world) ∅).2
  ≠ [FinishBar true (Some (PyPath.stem ex_path)) None].
Proof. split; [by vm_compute|]. by vm_compute. Qed.

(** ** C6: the conversion *)

(** C6, as the code has it: the conversion runs only for a format other
    than m4a, on the renamed file and towards the same name with the
    extension of the format.  When [ffmpeg] and the removal of the source
    both work, the source is gone from the disk, the converted file is
    there and the loop goes on with its stem.  When [ffmpeg] raises, the
    removal is not attempted, the source is still on disk and the job ends
    with a failure whose message is labelled as a conversion error.  When
    [ffmpeg] works and the removal of the source raises, the converted file
    and the source are both on disk, and the job ends with the same kind of
    failure. *)
Theorem conversion_contract (allow_playlist : bool) (fmt : Format)
    (url : string) (f : Fetch) fs before entry w after ff fs1 l1
    (flow : Flow) fs2 l2 (src dst : Path) :
  reaches fmt f fs before (entry, w) after ff fs1 l1 →
  entry_step fmt ff (entry, w) fs1 = (Ret flow, fs2, l2) →
  In (FfmpegConvert src dst) l2 →
  fmt ≠ m4a ∧
  src = new_path entry (stage_result w) ∧
  dst = converted_path fmt src ∧
  match convert w, source_unlink w with
  | ProcOk, IoOk =>
      (src ∉ fs2) ∧ dst ∈ fs2 ∧ flow = Next (Some (PyPath.stem dst))
  | ProcOk, IoRaise e =>
      src ∈ fs2 ∧ dst ∈ fs2 ∧ In (Unlink src) l2 ∧
      error_kind ("Convert Error: " +:+ e) = Some ConvertError ∧
      ∃ l0, job allow_playlist fmt url f fs
            = (Ret (), fs2,
               job_prefix allow_playlist url f ++ l1 ++ l0
                 ++ failed "Convert Error: " e)
  | ProcRaise e _, _ =>
      src ∈ fs2 ∧ ¬ In (Unlink src) l2 ∧
      error_kind ("Convert Error: " +:+ e) = Some ConvertError ∧
      ∃ l0, job allow_playlist fmt url f fs
            = (Ret (), fs2,
               job_prefix allow_playlist url f ++ l1 ++ l0
                 ++ failed "Convert Error: " e)
  end.
Proof.
  intros Hr Hst Hin.
  destruct (process_entry_spec entry w fs1)
    as (x & fsp & lp & Hpe & _ & Hev & _ & Hx).
  assert (Hnc : ¬ In (FfmpegConvert src dst) (UpdateProgress 90 :: lp)).
  { intros [?|H]; [done|]. rewrite Forall_forall in Hev.
    apply list_elem_of_In, Hev, entry_event_plain in H. naive_solver. }
  assert (Hnu : ¬ In (Unlink (new_path entry (stage_result w)))
                    (UpdateProgress 90 :: lp)).
  { intros [?|H]; [done|]. rewrite Forall_forall in Hev.
    apply list_elem_of_In, Hev in H.
    pose proof (temp_path_not_new_path entry (stage_result w)) as Hn.
    destruct H as [H|[H|H]]; [done|..].
    - destruct H as [H|[H|[H|H]]]; try done. apply Hn. congruence.
    - destruct H as [H|[[? H]|[[? H]|H]]]; done. }
  destruct x as [[p|]|e].
  - destruct Hx as [-> Hp].
    destruct (decide (fmt = m4a)) as [->|Hfmt].
    { rewrite (entry_step_m4a _ _ _ _ _ _ _ Hpe) in Hst.
      injection Hst as _ _ <-. done. }
    pose proof (entry_step_convert _ ff _ _ _ _ _ _ Hfmt Hpe) as Hconv.
    pose proof (converted_path_other entry (stage_result w) fmt Hfmt) as Hne.
    destruct (convert w) as [|e wrote], (source_unlink w) as [|e'];
      rewrite Hconv in Hst; injection Hst as <- <- <-;
      rewrite (app_comm_cons lp) in Hin; apply in_app_or in Hin as [?|Hin];
      try done; unfold failed in Hin; simpl in Hin;
      (destruct Hin as [[= <- <-]|Hin]; [|naive_solver]);
      (split; [done|]); (split; [done|]); (split; [done|]).
    + split; [set_solver|]. split; [set_solver|done].
    + split; [set_solver|]. split; [set_solver|].
      split; [rewrite (app_comm_cons lp); apply in_or_app; right; simpl; auto|].
      split; [done|].
      eexists (UpdateProgress 90 :: lp ++ [_; _]).
      rewrite (job_stops_at _ _ _ _ _ _ _ _ _ _ _ _ _ Hr Hconv).
      simpl. by rewrite <- !app_assoc.
    + split; [destruct wrote; set_solver|].
      split.
      { rewrite (app_comm_cons lp). intros [?|H]%in_app_or; [done|].
        unfold failed in H. simpl in H. naive_solver. }
      split; [done|].
      eexists (UpdateProgress 90 :: lp ++ [_]).
      rewrite (job_stops_at _ _ _ _ _ _ _ _ _ _ _ _ _ Hr Hconv).
      simpl. by rewrite <- !app_assoc.
    + split; [destruct wrote; set_solver|].
      split.
      { rewrite (app_comm_cons lp). intros [?|H]%in_app_or; [done|].
        unfold failed in H. simpl in H. naive_solver. }
      split; [done|].
      eexists (UpdateProgress 90 :: lp ++ [_]).
      rewrite (job_stops_at _ _ _ _ _ _ _ _ _ _ _ _ _ Hr Hconv).
      simpl. by rewrite <- !app_assoc.
  - rewrite (entry_step_no_path _ _ _ _ _ _ _ Hpe) in Hst.
    injection Hst as _ _ <-. done.
  - rewrite (entry_step_raises _ _ _ _ _ _ _ _ Hpe) in Hst.
    injection Hst as _ _ <-. rewrite (app_comm_cons lp) in Hin.
    apply in_app_or in Hin as [?|Hin]; [done|]. unfold failed in Hin.
    simpl in Hin. naive_solver.
Qed.

Lemma conversion_contract_witness :
  reaches mp3 (ex_fetch convert_fail_world) ∅ [] (ex_entry, convert_fail_world)
          [] None ({[ex_path]} ∪ ∅) [] ∧
  In (FfmpegConvert ex_new_path
        {| parent := "ytd_download"; name := "Artist - Song.mp3" |})
     (entry_step mp3 None (ex_entry, convert_fail_world) ({[ex_path]} ∪ ∅)).2 ∧
  (ex_new_path
   ∈ (entry_step mp3 None (ex_entry, convert_fail_world) ({[ex_path]} ∪ ∅)).1.2) ∧
  ∃ l0, job false mp3 ex_url (ex_fetch convert_fail_world) ∅
        = (Ret (),
           (entry_step mp3 None (ex_entry, convert_fail_world)
              ({[ex_path]} ∪ ∅)).1.2,
           job_prefix false ex_url (ex_fetch convert_fail_world) ++ [] ++ l0
             ++ failed "Convert Error: "
                       "Command returned non-zero exit status 1.").
Proof.
  assert (Hr : reaches mp3 (ex_fetch convert_fail_world) ∅ []
                 (ex_entry, convert_fail_world) [] None ({[ex_path]} ∪ ∅) [])
    by (split; reflexivity).
  assert (Hflow : (entry_step mp3 None (ex_entry, convert_fail_world)
                     ({[ex_path]} ∪ ∅)).1.1 = Ret Return)
    by (vm_compute; reflexivity).
  assert (Hin : In (FfmpegConvert ex_new_path
                      {| parent := "ytd_download"; name := "Artist - Song.mp3" |})
                   (entry_step mp3 None (ex_entry, convert_fail_world)
                      ({[ex_path]} ∪ ∅)).2)
    by (vm_compute; tauto).
  destruct (entry_step mp3 None (ex_entry, convert_fail_world) ({[ex_path]} ∪ ∅))
    as [[r fs2] l2] eqn:Hst.
  simpl in Hflow, Hin. subst r.
  split; [exact Hr|]. split; [exact Hin|].
  destruct (conversion_contract false mp3 ex_url (ex_fetch convert_fail_world)
              ∅ [] ex_entry convert_fail_world [] None ({[ex_path]} ∪ ∅) []
              Return fs2 l2 _ _ Hr Hst Hin)
    as (_ & _ & _ & Hfile & _ & _ & Hjob).
  split; [exact Hfile|exact Hjob].
Defined.

(** C6 as stated fails: in the run where [ffmpeg] converts the file and the
    removal of the source raises, the conversion has worked, the converted
    file is on disk, and the source is not deleted; the job then shows a
    conversion error. *)
Lemma conversion_succeeds_source_kept :
  convert source_kept_world = ProcOk ∧
  In (FfmpegConvert ex_new_path
        {| parent := "ytd_download"; name := "Artist - Song.mp3" |})
     (job false mp3 ex_url (ex_fetch source_kept_world) ∅).2 ∧
  ({| parent := "ytd_download"; name := "Artist - Song.mp3" |}
   ∈ (job false mp3 ex_url (ex_fetch source_kept_world) ∅).1.2) ∧
  (ex_new_path ∈ (job false mp3 ex_url (ex_fetch source_kept_world) ∅).1.2) ∧
  finish_calls (job false mp3 ex_url (ex_fetch source_kept_world) ∅).2
  = [FinishBar false None
       (Some "Convert Error: [Errno 13] Permission denied")].
Proof.
  split; [reflexivity|].
  split; [vm_compute; repeat first [left; reflexivity | right]|].
  split; [apply (bool_decide_unpack _); by vm_compute|].
  split; [apply (bool_decide_unpack _); by vm_compute|].
  by vm_compute.
Qed.

(** ** C4: the temporary MP3 *)

Lemma temp_path_not_any_new_path entry entry' (result : Result) :
  temp_path entry ≠ new_path entry' result.
Proof.
  intros H. pose proof (temp_path_last entry) as H1.
  rewrite H, new_path_last in H1. discriminate.
Qed.

(** A path that is neither the tagged file nor a temporary MP3 that stays
    is not put on disk by [process_entry]. *)
Lemma process_entry_keeps_out entry w fs (t : Path) :
  t ≠ new_path entry (stage_result w) →
  (temp_path entry = t → temp_unlink w = IoOk) →
  t ∉ fs ∨ (temp_path entry = t ∧ filename entry ∈ fs) →
  t ∉ (process_entry entry w fs).1.2.
Proof.
  intros Hn Hu Hout. destruct (decide (filename entry ∈ fs)) as [Hin|Hin].
  - destruct (recognition_stage_spec (filename entry) (temp_path entry) w fs)
      as (fs1 & l1 & Hs & _ & _ & Ht1 & Hfs).
    destruct (tag_and_rename_spec entry w (stage_result w) fs1)
      as (x & fs2 & l2 & Ht & _ & _ & Hfs2 & _).
    rewrite (process_entry_present _ _ _ fs1 l1), Ht by done. cbn [fst snd].
    assert (t ∉ fs1) as Hfs1.
    { destruct (decide (temp_path entry = t)) as [He|He].
      - rewrite <- He. apply Ht1. by apply Hu.
      - destruct Hout as [Hout|[? _]]; [|done].
        intros H. apply Hout. apply Hfs; [|done]. by intros ->. }
    destruct Hfs2 as [->| ->]; set_solver.
  - rewrite process_entry_missing by done. cbn [fst snd].
    by destruct Hout as [?|[_ ?]].
Qed.

Lemma entry_step_keeps_out (fmt : Format) (ff : option string) entry w fs
    (t : Path) :
  t ≠ new_path entry (stage_result w) →
  leaves_free fmt t (entry, w) →
  t ∉ fs ∨ (temp_path entry = t ∧ filename entry ∈ fs) →
  t ∉ (entry_step fmt ff (entry, w) fs).1.2.
Proof.
  intros Hn [Hc Hu] Hout. cbn [fst snd] in Hc, Hu.
  pose proof (process_entry_keeps_out entry w fs t Hn Hu Hout) as Hp.
  destruct (process_entry_spec entry w fs)
    as (x & fsp & lp & Hpe & _ & _ & _ & Hx).
  rewrite Hpe in Hp. cbn [fst snd] in Hp.
  destruct x as [[p|]|e].
  - destruct Hx as [-> _]. destruct (decide (fmt = m4a)) as [->|Hfmt].
    + by rewrite (entry_step_m4a _ _ _ _ _ _ _ Hpe).
    + rewrite (entry_step_convert _ _ _ _ _ _ _ _ Hfmt Hpe).
      specialize (Hc Hfmt).
      destruct (convert w) as [|e [|]], (source_unlink w) as [|e'];
        cbn [fst snd]; set_solver.
  - by rewrite (entry_step_no_path _ _ _ _ _ _ _ Hpe).
  - by rewrite (entry_step_raises _ _ _ _ _ _ _ _ Hpe).
Qed.

Lemma entries_loop_keeps_out (fmt : Format) (entry0 : Entry)
    (entries : list (Entry * World)) (ff : option string) fs :
  Forall (leaves_free fmt (temp_path entry0)) entries →
  temp_path entry0 ∉ fs →
  temp_path entry0 ∉ (entries_loop fmt ff entries fs).1.2.
Proof.
  intros Hall. revert ff fs.
  induction Hall as [|[entry w] rest Hf _ IH]; intros ff fs Hout; [done|].
  rewrite entries_loop_cons.
  pose proof (entry_step_keeps_out fmt ff entry w fs (temp_path entry0)
                (temp_path_not_any_new_path _ _ _) Hf (or_introl Hout)) as Hs.
  destruct (entry_step fmt ff (entry, w) fs) as [[[[ff'|]|e] fs1] l1];
    cbn [fst snd] in Hs; [|done..].
  specialize (IH ff' fs1 Hs).
  by destruct (entries_loop fmt ff' rest fs1) as [[r fs2] l2].
Qed.

(** C4, as the code has it: when the removal of the temporary MP3 does not
    itself raise, the file is gone from the disk after the recognition
    stage, however the stage went, and is still gone when [process_entry]
    ends, by a return or by an exception.  It is then not on disk either
    when the job has ended, however it ends, unless a later step of this job
    has put a file there: a converted file with the name of the temporary
    MP3, or the temporary MP3 of a later entry with the same path, whose
    removal raised. *)
Theorem temp_mp3_removed_when_unlink_succeeds entry w :
  temp_unlink w = IoOk →
  (∀ fs,
     temp_path entry
     ∉ (recognition_stage (filename entry) (temp_path entry) w fs).1.2) ∧
  (∀ fs, filename entry ∈ fs →
         temp_path entry ∉ (process_entry entry w fs).1.2) ∧
  (∀ (allow_playlist : bool) (fmt : Format) (url : string) (f : Fetch) fs
     before after ff fs1 l1,
     reaches fmt f fs before (entry, w) after ff fs1 l1 →
     filename entry ∈ fs1 →
     Forall (leaves_free fmt (temp_path entry)) ((entry, w) :: after) →
     temp_path entry ∉ (job allow_playlist fmt url f fs).1.2).
Proof.
  intros Hu. split; [|split].
  - intros fs.
    destruct (recognition_stage_spec (filename entry) (temp_path entry) w fs)
      as (fs' & l & -> & _ & _ & Ht & _). by apply Ht.
  - intros fs Hin. destruct (process_entry_spec entry w fs)
      as (x & fs' & l & -> & _ & _ & Ht & _). by apply Ht.
  - intros allow_playlist fmt url f fs before after ff fs1 l1 Hr Hin Hall.
    destruct (reaches_fetched _ _ _ _ _ _ _ _ _ Hr) as (info & Hi & Hn).
    destruct (entries_loop_spec fmt None (fetched_entries f) (written f ∪ fs))
      as (flow & fsL & lL & Heq & _).
    rewrite (job_entries _ _ _ _ _ _ _ _ _ Hi Hn Heq). cbn [fst snd].
    destruct Hr as [He Hl].
    rewrite He, (entries_loop_app _ _ _ _ _ _ _ _ Hl), entries_loop_cons in Heq.
    apply Forall_cons in Hall as [Hown Hafter].
    pose proof (entry_step_keeps_out fmt ff entry w fs1 (temp_path entry)
                  (temp_path_not_any_new_path _ _ _) Hown
                  (or_intror (conj eq_refl Hin))) as Hs.
    destruct (entry_step fmt ff (entry, w) fs1) as [[[[ff'|]|e] fsa] la];
      cbn [fst snd] in Hs; [|by injection Heq as _ <- _..].
    pose proof (entries_loop_keeps_out fmt entry after ff' fsa Hafter Hs) as Ha.
    destruct (entries_loop fmt ff' after fsa) as [[r fsb] lb].
    by injection Heq as _ <- _.
Qed.

Lemma temp_mp3_removed_when_unlink_succeeds_witness :
  reaches mp3
    (playlist_fetch [Some (ex_entry, ex_world); Some (second_entry, ex_world)])
    ∅ [] (ex_entry, ex_world) [(second_entry, ex_world)] None
    ({[ex_path; second_path]} ∪ ∅) [] ∧
  Forall (leaves_free mp3 (temp_path ex_entry))
         [(ex_entry, ex_world); (second_entry, ex_world)] ∧
  temp_path ex_entry
  ∉ (job true mp3 ex_url
       (playlist_fetch [Some (ex_entry, ex_world);
                        Some (second_entry, ex_world)]) ∅).1.2.
Proof.
  assert (Hr : reaches mp3
                 (playlist_fetch [Some (ex_entry, ex_world);
                                  Some (second_entry, ex_world)])
                 ∅ [] (ex_entry, ex_world) [(second_entry, ex_world)] None
                 ({[ex_path; second_path]} ∪ ∅) [])
    by (split; reflexivity).
  assert (Hin : filename ex_entry ∈ ({[ex_path; second_path]} ∪ ∅ : gset Path))
    by (apply (bool_decide_unpack _); by vm_compute).
  assert (Hall : Forall (leaves_free mp3 (temp_path ex_entry))
                        [(ex_entry, ex_world); (second_entry, ex_world)]).
  { repeat constructor; cbn [fst snd]; intros _; by vm_compute. }
  split; [exact Hr|]. split; [exact Hall|].
  exact (proj2 (proj2 (temp_mp3_removed_when_unlink_succeeds ex_entry ex_world
                         eq_refl))
           true mp3 ex_url _ ∅ [] _ None _ [] Hr Hin Hall).
Defined.

(** The job may put a file back where the temporary MP3 was: here the
    removal works, and the MP3 the download is converted to has the name of
    the temporary MP3. *)
Lemma converted_file_takes_temp_name :
  temp_unlink temp_named_world = IoOk ∧
  converted_path mp3 (new_path temp_named_entry (stage_result temp_named_world))
  = temp_path temp_named_entry ∧
  (temp_path temp_named_entry
   ∉ (process_entry temp_named_entry temp_named_world {[temp_named_path]}).1.2) ∧
  temp_path temp_named_entry
  ∈ (job false mp3 ex_url temp_named_fetch ∅).1.2.
Proof.
  split; [reflexivity|]. split; [by vm_compute|].
  split; [apply (bool_decide_unpack _); by vm_compute|].
  apply (bool_decide_unpack _). by vm_compute.
Qed.

(** C4 as stated fails: when the removal of the temporary MP3 raises, which
    the code only logs, the job goes on to report success and the file is
    still on disk when it ends. *)
Lemma temp_mp3_left_when_unlink_raises :
  temp_path ex_entry = {| parent := "ytd_download"; name := "abc.temp.mp3" |} ∧
  finish_calls (job false m4a ex_url (ex_fetch unlink_fail_world) ∅).2
  = [FinishBar true (Some "Artist - Song") None] ∧
  temp_path ex_entry ∈ (job false m4a ex_url (ex_fetch unlink_fail_world) ∅).1.2.
Proof.
  split; [reflexivity|]. split; [by vm_compute|].
  apply (bool_decide_unpack _). by vm_compute.
Qed.

(** ** C7: the recognized title and artist *)

Lemma resolve_tags_title_artist entry (track_data : option Track)
    (song_title artist : string) (cover : option string) :
  nam (resolve_tags entry track_data song_title artist cover) = song_title ∧
  ART (resolve_tags entry track_data song_title artist cover) = artist.
Proof.
  unfold resolve_tags.
  destruct track_data as [t|]; [|done].
  destruct (sections t) as [|[metadata|] ?]; try done.
  by destruct (fold_left _ _ _) as [[album year] genre].
Qed.

(** C7: the title and the artist of a recognized track are the ones
    resolved, whatever the entry says, and they are the ones given to the
    container when it is saved; for the entry of the example the title
    computed from the entry alone is "Song". *)
Theorem recognized_title_and_artist_win entry w fs (t : Track)
    (track_title' track_subtitle' : string) :
  track_title t = Some track_title' →
  track_subtitle t = Some track_subtitle' →
  song_title_of entry (ResultTrack t) = track_title' ∧
  artist_of entry (ResultTrack t) = track_subtitle' ∧
  (filename entry ∈ fs → stage_result w = ResultTrack t → mp4_open w = IoOk →
   ∃ tags, In (Save (filename entry) tags) (process_entry entry w fs).2 ∧
           nam tags = track_title' ∧ ART tags = track_subtitle') ∧
  entry_title ex_entry = "Song" ∧
  song_title_of ex_entry (ResultTrack ex_track) = "Song" ∧
  artist_of ex_entry (ResultTrack ex_track) = "Artist".
Proof.
  intros Ht Ha.
  assert (Hs : song_title_of entry (ResultTrack t) = track_title')
    by (unfold song_title_of; simpl; by rewrite Ht).
  assert (Hr : artist_of entry (ResultTrack t) = track_subtitle')
    by (unfold artist_of; simpl; by rewrite Ha).
  split; [done|]. split; [done|]. split; [|by repeat split].
  intros Hin Hst Ho.
  destruct (recognition_stage_spec (filename entry) (temp_path entry) w fs)
    as (fs1 & l1 & Hrs & _).
  rewrite (process_entry_present _ _ _ _ _ Hin Hrs), Hst.
  destruct (tag_and_rename_saves entry w t fs1 Ho) as [cover Hsave].
  destruct (tag_and_rename entry w (ResultTrack t) fs1) as [[x fs2] l2].
  eexists. split.
  - cbn [snd]. right. apply in_or_app. right. exact Hsave.
  - rewrite <- Hs, <- Hr. apply resolve_tags_title_artist.
Qed.

Lemma recognized_title_and_artist_win_witness :
  track_title ex_track = Some "Song" ∧
  track_subtitle ex_track = Some "Artist" ∧
  ∃ tags, In (Save ex_path tags) (process_entry ex_entry ex_world {[ex_path]}).2 ∧
          nam tags = "Song" ∧ ART tags = "Artist".
Proof.
  split; [reflexivity|]. split; [reflexivity|].
  apply (recognized_title_and_artist_win ex_entry ex_world {[ex_path]} ex_track
           "Song" "Artist" eq_refl eq_refl).
  - apply elem_of_singleton. reflexivity.
  - reflexivity.
  - reflexivity.
Defined.

(** ** C9: the URL given to the fetcher *)

Lemma entry_step_no_fetch (fmt : Format) (ff : option string) entry w fs :
  Forall (λ ev, is_fetch ev = false) (entry_step fmt ff (entry, w) fs).2.
Proof.
  destruct (process_entry_spec entry w fs)
    as (x & fs1 & l1 & Hpe & _ & Hev & _ & _).
  assert (Hf : Forall (λ ev, is_fetch ev = false) l1).
  { eapply Forall_impl; [exact Hev|]. intros ev.
    unfold entry_event, stage_event, tag_event. naive_solver. }
  destruct x as [[p|]|e].
  - destruct (decide (fmt = m4a)) as [->|Hfmt].
    + rewrite (entry_step_m4a _ _ _ _ _ _ _ Hpe). by constructor.
    + rewrite (entry_step_convert _ _ _ _ _ _ _ _ Hfmt Hpe).
      destruct (convert w), (source_unlink w); (constructor; [done|]);
        apply Forall_app; (split; [done|]); by repeat constructor.
  - rewrite (entry_step_no_path _ _ _ _ _ _ _ Hpe). by constructor.
  - rewrite (entry_step_raises _ _ _ _ _ _ _ _ Hpe).
    constructor; [done|]. apply Forall_app. split; [done|].
    by repeat constructor.
Qed.

Lemma entries_loop_no_fetch (fmt : Format) (ff : option string)
    (entries : list (Entry * World)) fs :
  Forall (λ ev, is_fetch ev = false) (entries_loop fmt ff entries fs).2.
Proof.
  revert ff fs. induction entries as [|[entry w] rest IH]; intros ff fs.
  - constructor.
  - rewrite entries_loop_cons. pose proof (entry_step_no_fetch fmt ff entry w fs) as H.
    destruct (entry_step fmt ff (entry, w) fs) as [[[[ff'|]|e] fs1] l1];
      try done.
    specialize (IH ff' fs1).
    destruct (entries_loop fmt ff' rest fs1) as [[r fs2] l2].
    by apply Forall_app.
Qed.

Lemma hook_events_no_fetch (calls : list HookCall) :
  Forall (λ ev, is_fetch ev = false) (hook_events calls).
Proof.
  induction calls as [|[[] ?| |] calls IH]; try done; by constructor.
Qed.

(** C9: without the playlist option the fetcher is called once, after the
    reports of 5 and 10, with the part of the URL before the first "&list=",
    which is the whole URL when it has none; for the URL of the example
    this is "https://x.test/watch?v=abc". *)
Theorem playlist_suffix_stripped (fmt : Format) (url : string) (f : Fetch) fs :
  (∃ outtmpl rest,
     (job false fmt url f fs).2
     = UpdateProgress 5 :: UpdateProgress 10
       :: ExtractInfo (PyStr.item0 (PyStr.split url "&list=")) outtmpl :: rest ∧
     Forall (λ ev, is_fetch ev = false) rest) ∧
  prefix_before_first "&list=" url (PyStr.item0 (PyStr.split url "&list=")) ∧
  PyStr.item0 (PyStr.split "https://x.test/watch?v=abc&list=XYZ" "&list=")
  = "https://x.test/watch?v=abc".
Proof.
  split; [|split; [rewrite item0_split; by apply first_piece_spec|reflexivity]].
  destruct (fetched f) as [info|e] eqn:Hf.
  - assert (info = InfoNone ∨ info ≠ InfoNone) as [->|Hn]
      by (destruct info; auto).
    + rewrite (job_no_info _ _ _ _ _ Hf). eexists _, _. split; [done|].
      apply hook_events_no_fetch.
    + pose proof (entries_loop_no_fetch fmt None (fetched_entries f)
                    (written f ∪ fs)) as Hl.
      destruct (entries_loop_spec fmt None (fetched_entries f) (written f ∪ fs))
        as (flow & fs1 & l1 & Heq & _).
      rewrite Heq in Hl. rewrite (job_entries _ _ _ _ _ _ _ _ _ Hf Hn Heq).
      eexists _, _. split; [done|].
      apply Forall_app. split; [apply hook_events_no_fetch|].
      apply Forall_app. split; [done|]. destruct flow; by repeat constructor.
  - rewrite (job_download_error _ _ _ _ _ _ Hf). eexists _, _. split; [done|].
    apply Forall_app. split; [apply hook_events_no_fetch|].
    by repeat constructor.
Qed.

(** ** C2: the reported progress *)

Lemma progress_app l l' : progress (l ++ l') = progress l ++ progress l'.
Proof. apply omap_app. Qed.

Lemma progress_job_prefix (allow_playlist : bool) (url : string) (f : Fetch) :
  progress (job_prefix allow_playlist url f)
  = 5 :: 10 :: progress (hook_events (hook_calls f)).
Proof. reflexivity. Qed.

Lemma hook_events_no_finish (calls : list HookCall) :
  Forall (λ ev, is_finish ev = false) (hook_events calls).
Proof.
  induction calls as [|[[] ?| |] calls IH]; try done; by constructor.
Qed.

Lemma no_finish_not_in l (success : bool) (fn em : option string) :
  Forall (λ ev, is_finish ev = false) l → ¬ In (FinishBar success fn em) l.
Proof.
  intros H Hin. rewrite Forall_forall in H.
  by apply list_elem_of_In, H in Hin.
Qed.

Lemma sorted_after_hooks (hooks tail : list Z) :
  StronglySorted Z.le (10 :: hooks ++ [90]) →
  StronglySorted Z.le (90 :: tail) →
  StronglySorted Z.le (5 :: 10 :: hooks ++ tail).
Proof.
  rewrite !StronglySorted_cons, !StronglySorted_app, !Forall_app, !Forall_forall.
  intros (H10 & Hh & Hs & _) (H90 & Ht).
  assert (H90' : ∀ x, x ∈ hooks → x ≤ 90).
  { intros x Hx. apply (Hh x 90 Hx). by apply list_elem_of_singleton. }
  split.
  { intros x [->|[Hx|Hx]%elem_of_app]%elem_of_cons; [lia|..].
    - destruct H10 as [H10 _]. specialize (H10 x Hx). lia.
    - specialize (H90 x Hx). lia. }
  split.
  { split; [apply H10|]. intros x Hx. specialize (H90 x Hx). lia. }
  split; [|done].
  intros x y Hx Hy. specialize (H90' x Hx). specialize (H90 y Hy). lia.
Qed.

(** C2, as the code has it: whenever a job shows its outcome, success or
    failure, the last value it reports is 100; and its reports never go
    down if the values of the download hook do not (between the 10 reported
    before them and the 90 reported after) and the job has at most one
    entry. *)
Theorem progress_ends_at_100 (allow_playlist : bool) (fmt : Format)
    (url : string) (f : Fetch) fs :
  ((∃ success fn em,
      In (FinishBar success fn em) (job allow_playlist fmt url f fs).2) →
   last (progress (job allow_playlist fmt url f fs).2) = Some 100) ∧
  (StronglySorted Z.le (10 :: progress (hook_events (hook_calls f)) ++ [90]) →
   (length (fetched_entries f) ≤ 1)%nat →
   StronglySorted Z.le (progress (job allow_playlist fmt url f fs).2)).
Proof.
  destruct (fetched f) as [info|e] eqn:Hf.
  - assert (info = InfoNone ∨ info ≠ InfoNone) as [->|Hn]
      by (destruct info; auto).
    + rewrite (job_no_info _ _ _ _ _ Hf). cbn [snd]. split.
      * intros (success & fn & em & Hin). exfalso. unfold job_prefix in Hin.
        apply in_app_or in Hin as [Hin|Hin]; [simpl in Hin; naive_solver|].
        by apply no_finish_not_in in Hin; [|apply hook_events_no_finish].
      * intros Hs _. rewrite progress_job_prefix.
        rewrite <- (app_nil_r (progress _)).
        apply sorted_after_hooks; [done|]. by repeat constructor.
    + destruct (entries_loop_spec fmt None (fetched_entries f) (written f ∪ fs))
        as (flow & fs1 & l1 & Heq & _ & Hflow).
      rewrite (job_entries _ _ _ _ _ _ _ _ _ Hf Hn Heq). cbn [snd]. split.
      * intros _. destruct flow as [ff|].
        -- unfold succeeded.
           change [UpdateProgress 100; FinishBar true ff None; UpdateProgress 100]
             with ([UpdateProgress 100; FinishBar true ff None]
                     ++ [UpdateProgress 100]).
           rewrite !app_assoc, progress_app. apply last_snoc.
        -- destruct Hflow as (l0 & label & e & -> & _). unfold failed.
           rewrite app_nil_r.
           change [FinishBar false None (Some (label +:+ e)); UpdateProgress 100]
             with ([FinishBar false None (Some (label +:+ e))]
                     ++ [UpdateProgress 100]).
           rewrite !app_assoc, progress_app. apply last_snoc.
      * intros Hs Hlen. rewrite !progress_app, progress_job_prefix.
        rewrite <- app_comm_cons, <- app_comm_cons.
        apply sorted_after_hooks; [done|].
        destruct (fetched_entries f) as [|[entry w] [|? ?]];
          [| |simpl in Hlen; lia].
        { cbn [entries_loop] in Heq. injection Heq as <- _ <-.
          by repeat constructor. }
        rewrite entries_loop_cons in Heq.
        destruct (entry_step_spec fmt None entry w (written f ∪ fs))
          as (flow' & fs' & l' & mid & Hst & Hmid & _ & Hp).
        rewrite Hst in Heq. destruct flow' as [ff'|].
        -- cbn [entries_loop] in Heq. injection Heq as <- _ <-.
           rewrite app_nil_r. destruct Hp as [-> _].
           destruct Hmid as [-> | ->]; repeat constructor; lia.
        -- injection Heq as <- _ <-. destruct Hp as [-> _].
           destruct Hmid as [-> | ->]; repeat constructor; lia.
  - rewrite (job_download_error _ _ _ _ _ _ Hf). cbn [snd]. split.
    + intros _. rewrite !progress_app.
      change (progress (failed "Download Error: " e) ++ progress [ShowError _ _])
        with [100].
      apply last_snoc.
    + intros Hs _. rewrite !progress_app, progress_job_prefix. simpl.
      apply sorted_after_hooks; [done|]. by repeat constructor.
Qed.

Lemma progress_ends_at_100_witness :
  In (FinishBar true (Some "Artist - Song") None)
     (job false m4a ex_url steady_fetch ∅).2 ∧
  StronglySorted Z.le
    (10 :: progress (hook_events (hook_calls steady_fetch)) ++ [90]) ∧
  (length (fetched_entries steady_fetch) ≤ 1)%nat ∧
  last (progress (job false m4a ex_url steady_fetch ∅).2) = Some 100 ∧
  StronglySorted Z.le (progress (job false m4a ex_url steady_fetch ∅).2).
Proof.
  assert (Hin : In (FinishBar true (Some "Artist - Song") None)
                   (job false m4a ex_url steady_fetch ∅).2)
    by (vm_compute; tauto).
  assert (Hs : StronglySorted Z.le
                 (10 :: progress (hook_events (hook_calls steady_fetch)) ++ [90]))
    by (simpl; repeat constructor; lia).
  assert (Hlen : (length (fetched_entries steady_fetch) ≤ 1)%nat)
    by (simpl; lia).
  split; [exact Hin|]. split; [exact Hs|]. split; [exact Hlen|].
  destruct (progress_ends_at_100 false m4a ex_url steady_fetch ∅) as [Ha Hb].
  split; [apply Ha; eauto|apply Hb; assumption].
Defined.

(** C2 as stated fails: the download hook reports the percentage of the
    download after the job has reported 10, and the end of the download is
    reported as 90 after the hook has reported 100. *)
Lemma progress_not_monotone :
  progress (job false m4a ex_url (ex_fetch ex_world) ∅).2
  = [5; 10; 0; 100; 90; 90; 92; 96; 100; 100] ∧
  ¬ StronglySorted Z.le (progress (job false m4a ex_url (ex_fetch ex_world) ∅).2).
Proof.
  assert (H : progress (job false m4a ex_url (ex_fetch ex_world) ∅).2
              = [5; 10; 0; 100; 90; 90; 92; 96; 100; 100]) by by vm_compute.
  split; [exact H|]. rewrite H. intros Hs.
  apply StronglySorted_cons in Hs as [_ Hs].
  apply StronglySorted_cons in Hs as [Hs _].
  apply Forall_cons in Hs as [Hs _]. lia.
Qed.

(** The second entry of a playlist is reported from 90 again, after the 96
    of the first, whatever the download hook reports. *)
Example progress_regresses_between_entries :
  progress
    (job true m4a ex_url
       {| hook_calls := [];
          written := {[ex_path; second_path]};
          fetched := Ret (InfoEntries [Some (ex_entry, ex_world);
                                       Some (second_entry, ex_world)]) |} ∅).2
  = [5; 10; 90; 92; 96; 90; 92; 96; 100; 100].
Proof. by vm_compute. Qed.

End Claims.

(** * More about the title cleaning *)

Section MoreStrings.

Import PyStr.

Lemma rstrip_last p s (c : ascii) :
  last_char (rstrip_with p s) = Some c → p c = false.
Proof.
  induction s as [|a s IH]; [done|]. simpl.
  destruct (rstrip_with p s) as [|d r] eqn:Hr.
  - destruct (p a) eqn:Ha; [done|]. simpl. by intros [= <-].
  - simpl. simpl in IH. destruct (last_char r); intros [= <-]; by apply IH.
Qed.

Lemma lstrip_length p s :
  (String.length (lstrip_with p s) ≤ String.length s)%nat.
Proof.
  induction s as [|a s IH]; [done|]. simpl. destruct (p a); simpl; lia.
Qed.

Lemma rstrip_length p s :
  (String.length (rstrip_with p s) ≤ String.length s)%nat.
Proof.
  induction s as [|a s IH]; [done|]. simpl.
  destruct (rstrip_with p s) as [|d r]; [destruct (p a)|]; simpl in *; lia.
Qed.

Lemma strip_with_length p s :
  (String.length (strip_with p s) ≤ String.length s)%nat.
Proof.
  unfold strip_with. etrans; [apply rstrip_length|apply lstrip_length].
Qed.

Lemma split_from_length sep k s :
  (String.length (split_from sep k s).1 ≤ String.length s)%nat.
Proof.
  revert k. induction s as [|a s IH]; [done|]. intros k.
  cbn [split_from]. destruct k as [|k]; [|specialize (IH k); simpl; lia].
  destruct (startswith (String a s) sep).
  - destruct (split_from sep _ s). simpl. lia.
  - specialize (IH O). destruct (split_from sep O s). simpl in *. lia.
Qed.

Lemma replace_from_length old k s :
  (String.length (replace_from old EmptyString k s) ≤ String.length s)%nat.
Proof.
  revert k. induction s as [|a s IH]; [done|]. intros k.
  cbn [replace_from]. destruct k as [|k]; [|specialize (IH k); simpl; lia].
  destruct (startswith (String a s) old).
  - rewrite app_empty_l. specialize (IH (Nat.pred (String.length old))).
    simpl. lia.
  - specialize (IH O). simpl. lia.
Qed.

Lemma replace_length s old :
  (String.length (replace s old EmptyString) ≤ String.length s)%nat.
Proof.
  destruct old as [|b old]; simpl.
  - by rewrite replace_empty_empty.
  - apply replace_from_length.
Qed.

(** X1: the cleaning only takes characters away: a character that is not in
    the raw title is not in the cleaned one, which is not longer. *)
Theorem clean_title_only_removes (uploader raw_title : string) (a : ascii) :
  (char_in raw_title a = false →
   char_in (clean_title uploader raw_title) a = false) ∧
  (String.length (clean_title uploader raw_title)
   ≤ String.length raw_title)%nat.
Proof.
  unfold clean_title, strip_chars, strip. rewrite !item0_split. split.
  - intros H.
    apply strip_with_char_in, strip_with_char_in, replace_char_in,
      strip_with_char_in, first_piece_char_in, strip_with_char_in,
      first_piece_char_in.
    destruct (contains raw_title uploader); [|done].
    by apply strip_with_char_in, replace_char_in.
  - etrans; [apply strip_with_length|]. etrans; [apply strip_with_length|].
    etrans; [apply replace_length|]. etrans; [apply strip_with_length|].
    etrans; [apply split_from_length|]. etrans; [apply strip_with_length|].
    etrans; [apply split_from_length|].
    destruct (contains raw_title uploader); [|done].
    etrans; [apply strip_with_length|]. apply replace_length.
Qed.

Lemma clean_title_only_removes_witness :
  char_in "Artist - Song [Official Video]" "/" = false ∧
  char_in (clean_title "Artist" "Artist - Song [Official Video]") "/" = false.
Proof.
  split; [reflexivity|].
  apply (clean_title_only_removes "Artist" "Artist - Song [Official Video]" "/").
  reflexivity.
Defined.

(** X2: a cleaned title holds no opening bracket, and neither begins nor
    ends with a space or with one of the punctuation marks that are
    stripped. *)
Theorem clean_title_shape (uploader raw_title : string) :
  char_in (clean_title uploader raw_title) "[" = false ∧
  (∀ c rest, clean_title uploader raw_title = String c rest →
             char_in STRIP_CHARS c = false) ∧
  (∀ c, last_char (clean_title uploader raw_title) = Some c →
        char_in STRIP_CHARS c = false).
Proof.
  split; [apply clean_title_no_bracket|]. split.
  - intros c rest H.
    assert (Hl : lstripped (char_in STRIP_CHARS) (clean_title uploader raw_title)).
    { unfold clean_title, strip_chars, strip_with.
      apply rstrip_lstripped, lstrip_lstripped. }
    by rewrite H in Hl.
  - intros c. unfold clean_title, strip_chars, strip_with. apply rstrip_last.
Qed.

End MoreStrings.

(** * The text shown for a download ([get_url_id]) *)

Section UrlId.

Import PyStr.

Lemma contains_app_iff (s sub : string) :
  contains s sub = true ↔ ∃ a b, s = a +:+ sub +:+ b.
Proof.
  induction s as [|c s IH].
  - cbn [contains]. rewrite orb_false_r, startswith_app. split.
    + intros [r Hr]. by exists EmptyString, r.
    + intros ([|??] & b & H); [by exists b|by rewrite app_cons in H].
  - cbn [contains]. rewrite orb_true_iff, startswith_app, IH. split.
    + intros [[r Hr]|(a & b & ->)]; [by exists EmptyString, r|].
      by exists (String c a), b.
    + intros ([|c' a] & b & H); [left; by exists b|].
      rewrite app_cons in H. injection H as _ ->. right. by exists a, b.
Qed.

Lemma first_piece_prefix (s sep : string) : ∃ r, s = first_piece s sep +:+ r.
Proof.
  induction s as [|c s [r IH]]; [by exists EmptyString|].
  rewrite first_piece_cons. destruct (startswith (String c s) sep).
  - by eexists.
  - exists r. by rewrite app_cons, <- IH.
Qed.

Lemma first_piece_no_sep_inside (s sep : string) :
  sep ≠ EmptyString → contains (first_piece s sep) sep = false.
Proof.
  intros Hsep. induction s as [|c s IH].
  - destruct sep; [done|]. reflexivity.
  - rewrite first_piece_cons.
    destruct (startswith (String c s) sep) eqn:Hst.
    + destruct sep; [done|]. reflexivity.
    + cbn [contains]. rewrite IH, orb_false_r.
      destruct (startswith (String c (first_piece s sep)) sep) eqn:Hst';
        [|done].
      apply startswith_app in Hst' as [r Hr].
      destruct (first_piece_prefix s sep) as [r' Hr'].
      assert (startswith (String c s) sep = true); [|congruence].
      apply startswith_app. exists (r +:+ r').
      by rewrite <- app_assoc_str, <- Hr, app_cons, <- Hr'.
Qed.

Lemma find_none (s sub : string) :
  find s sub = None ↔ contains s sub = false.
Proof.
  induction s as [|c s IH]; cbn [find contains].
  - destruct (startswith EmptyString sub); by split.
  - destruct (startswith (String c s) sub); [by split|]. simpl.
    destruct (find s sub); split; try done.
    + intros H. apply IH in H. done.
    + intros _. by apply IH.
Qed.

Lemma find_first_piece (s sep : string) :
  match find s sep with Some i => take i s | None => s end = first_piece s sep.
Proof.
  induction s as [|c s IH].
  - cbn [find]. unfold first_piece. simpl. by destruct (startswith _ _).
  - rewrite first_piece_cons. cbn [find].
    destruct (startswith (String c s) sep); [done|].
    rewrite <- IH. by destruct (find s sep).
Qed.

Lemma drop_suffix (n : nat) (s : string) : ∃ a, s = a +:+ PyPath.drop n s.
Proof.
  revert s. induction n as [|n IH]; intros s; [by exists EmptyString|].
  destruct s as [|c s]; [by exists EmptyString|].
  destruct (IH s) as [a Ha]. exists (String c a). simpl.
  by rewrite app_cons, <- Ha.
Qed.

(** After the index of the parameter, the id is the part before the next
    "&list=". *)
Lemma id_from_index (url : string) (v_idx : nat) :
  match find_from url "&list=" v_idx with
  | None => PyPath.drop v_idx url
  | Some end_idx => slice v_idx end_idx url
  end = first_piece (PyPath.drop v_idx url) "&list=".
Proof.
  rewrite <- find_first_piece. unfold find_from, slice.
  destruct (find (PyPath.drop v_idx url) "&list=") as [i|]; [|done].
  by replace (v_idx + i - v_idx)%nat with i by lia.
Qed.

(** X3: the text shown for a download is a part of the URL in one piece; for
    a URL with a "v=" it holds no "&list=", and a URL without "v=" is shown
    whole. *)
Theorem get_url_id_spec (url : string) :
  (∃ a b, url = a +:+ get_url_id url +:+ b) ∧
  (contains url "v=" = true → contains (get_url_id url) "&list=" = false) ∧
  (contains url "v=" = false → get_url_id url = url).
Proof.
  unfold get_url_id.
  destruct (find url "?v=") as [i|] eqn:Hq.
  - rewrite id_from_index. split; [|split].
    + destruct (drop_suffix (i + 3) url) as [a Ha].
      destruct (first_piece_prefix (PyPath.drop (i + 3) url) "&list=") as [b Hb].
      exists a, b. by rewrite <- Hb.
    + intros _. by apply first_piece_no_sep_inside.
    + intros Hv. exfalso.
      assert (contains url "?v=" = true) as (a & b & ->)%contains_app_iff.
      { destruct (contains url "?v=") eqn:Hc; [done|].
        apply find_none in Hc. congruence. }
      assert (contains (a +:+ "?v=" +:+ b) "v=" = true); [|congruence].
      apply contains_app_iff. exists (a +:+ "?"), b.
      by rewrite app_assoc_str.
  - destruct (find url "v=") as [i|] eqn:Hv.
    + rewrite id_from_index. split; [|split].
      * destruct (drop_suffix (i + 2) url) as [a Ha].
        destruct (first_piece_prefix (PyPath.drop (i + 2) url) "&list=")
          as [b Hb].
        exists a, b. by rewrite <- Hb.
      * intros _. by apply first_piece_no_sep_inside.
      * intros Hc. apply find_none in Hc. congruence.
    + split; [exists EmptyString, EmptyString; by rewrite app_empty_r|].
      split; [|done]. intros Hc. apply find_none in Hv. congruence.
Qed.

Lemma get_url_id_spec_witness :
  contains "https://x.test/watch?v=abc&list=XYZ" "v=" = true ∧
  contains (get_url_id "https://x.test/watch?v=abc&list=XYZ") "&list=" = false ∧
  contains "https://youtu.be/abc" "v=" = false ∧
  get_url_id "https://youtu.be/abc" = "https://youtu.be/abc".
Proof.
  split; [reflexivity|].
  split; [apply (get_url_id_spec "https://x.test/watch?v=abc&list=XYZ");
          reflexivity|].
  split; [reflexivity|].
  apply (get_url_id_spec "https://youtu.be/abc"). reflexivity.
Defined.

End UrlId.

(** * The validation of the URL *)

Section Validation.

Import PyStr.

Lemma fullmatch_void (r : Re.regex) (s : string) :
  void r = true → Re.fullmatch r s = false.
Proof.
  revert r. induction s as [|c s IH]; intros r Hr.
  - induction r; simpl in *; try done.
    + apply orb_true_iff in Hr as [?|?]; rewrite ?IHr1, ?IHr2 by done;
        by rewrite ?andb_false_r.
    + apply andb_true_iff in Hr as [??]. by rewrite IHr1, IHr2.
  - simpl. apply IH. clear IH. induction r; simpl in *; try done.
    + apply orb_true_iff in Hr as [H|H].
      * rewrite IHr1 by done. simpl.
        assert (Re.nullable r1 = false) as ->; [|done].
        clear -H. induction r1; simpl in *; try done.
        -- apply orb_true_iff in H as [?|?]; rewrite ?IHr1_1, ?IHr1_2 by done;
             by rewrite ?andb_false_r.
        -- apply andb_true_iff in H as [??]. by rewrite IHr1_1, IHr1_2.
      * rewrite H, orb_true_r. simpl. destruct (Re.nullable r1); [|done].
        by apply IHr2.
    + apply andb_true_iff in Hr as [??]. by rewrite IHr1, IHr2.
Qed.

Lemma avoids_deriv_void (c : ascii) (r : Re.regex) :
  avoids c r = true → void (Re.deriv c r) = true.
Proof.
  induction r; simpl; try done.
  - intros H. by destruct (p c).
  - intros [H1 H2]%andb_true_iff. rewrite IHr1 by done. simpl.
    destruct (Re.nullable r1); [by apply IHr2|done].
  - intros [H1 H2]%andb_true_iff. by rewrite IHr1, IHr2.
  - intros H. by rewrite IHr.
Qed.

Lemma avoids_deriv (c a : ascii) (r : Re.regex) :
  avoids c r = true → avoids c (Re.deriv a r) = true.
Proof.
  induction r; simpl; try done.
  - intros H. by destruct (p a).
  - intros [H1 H2]%andb_true_iff. rewrite IHr1, H2 by done. simpl.
    destruct (Re.nullable r1); [by apply IHr2|done].
  - intros [H1 H2]%andb_true_iff. by rewrite IHr1, IHr2.
  - intros H. by rewrite IHr, H.
Qed.

(** A string matched by a pattern has none of the characters that the
    pattern avoids. *)
Lemma fullmatch_avoids (c : ascii) (r : Re.regex) (s : string) :
  avoids c r = true → Re.fullmatch r s = true → char_in s c = false.
Proof.
  revert r. induction s as [|a s IH]; intros r Hr Hm; [done|].
  simpl in *. destruct (Ascii.eqb a c) eqn:Hac.
  - apply Ascii.eqb_eq in Hac as ->.
    rewrite fullmatch_void in Hm; [done|by apply avoids_deriv_void].
  - simpl. eapply IH; [|done]. by apply avoids_deriv.
Qed.

Lemma all_ascii_complete (c : ascii) : In c all_ascii.
Proof.
  unfold all_ascii. rewrite <- (ascii_nat_embedding c).
  apply in_map, in_seq. pose proof (nat_ascii_bounded c). lia.
Qed.

Lemma requires_not_nullable (c : ascii) (r : Re.regex) :
  requires c r = true → Re.nullable r = false.
Proof.
  induction r; cbn [requires Re.nullable]; try done.
  - intros [?|?]%orb_true_iff; rewrite ?IHr1, ?IHr2 by done;
      by rewrite ?andb_false_r.
  - intros [??]%andb_true_iff. by rewrite IHr1, IHr2.
Qed.

Lemma requires_deriv (c a : ascii) (r : Re.regex) :
  a ≠ c → requires c r = true → requires c (Re.deriv a r) = true.
Proof.
  intros Hac. induction r; cbn [requires Re.deriv]; try done.
  - intros H. destruct (p a) eqn:Hpa; [|done]. exfalso.
    rewrite forallb_forall in H. specialize (H a (all_ascii_complete a)).
    rewrite Hpa in H. simpl in H. by apply Ascii.eqb_eq in H.
  - intros [H|H]%orb_true_iff.
    + rewrite IHr1 by done. simpl.
      by rewrite (requires_not_nullable _ _ H).
    + rewrite H, orb_true_r. simpl.
      destruct (Re.nullable r1); [by apply IHr2|done].
  - intros [??]%andb_true_iff. by rewrite IHr1, IHr2.
Qed.

(** A string matched by a pattern has the characters that the pattern
    requires. *)
Lemma fullmatch_requires (c : ascii) (r : Re.regex) (s : string) :
  requires c r = true → Re.fullmatch r s = true → char_in s c = true.
Proof.
  revert r. induction s as [|a s IH]; intros r Hr Hm.
  - simpl in Hm. by rewrite (requires_not_nullable _ _ Hr) in Hm.
  - simpl in *. destruct (Ascii.eqb a c) eqn:Hac; [done|]. simpl.
    eapply IH; [|done]. apply requires_deriv; [|done].
    by apply Ascii.eqb_neq.
Qed.

Lemma url_regex_avoids_space (c : ascii) :
  isspace c = true → avoids c url_regex = true.
Proof.
  destruct c as [[] [] [] [] [] [] [] []]; vm_compute; done.
Qed.

Lemma url_regex_requires_dot : requires "." url_regex = true.
Proof. by vm_compute. Qed.

Lemma fullmatch_alt (r1 r2 : Re.regex) (s : string) :
  Re.fullmatch (Re.Alt r1 r2) s = Re.fullmatch r1 s || Re.fullmatch r2 s.
Proof.
  revert r1 r2. induction s as [|c s IH]; intros r1 r2; [done|].
  simpl. apply IH.
Qed.

Lemma fullmatch_seq (r1 r2 : Re.regex) (s : string) :
  Re.fullmatch (Re.Seq r1 r2) s = true →
  ∃ s1 s2, s = s1 +:+ s2 ∧ Re.fullmatch r1 s1 = true ∧
           Re.fullmatch r2 s2 = true.
Proof.
  revert r1. induction s as [|c s IH]; intros r1; simpl.
  - intros [??]%andb_true_iff. by exists EmptyString, EmptyString.
  - rewrite fullmatch_alt. intros [H|H]%orb_true_iff.
    + apply IH in H as (s1 & s2 & -> & H1 & H2).
      by exists (String c s1), s2.
    + destruct (Re.nullable r1) eqn:Hn.
      * by exists EmptyString, (String c s).
      * by rewrite fullmatch_void in H.
Qed.

Lemma fullmatch_newline (s : string) :
  Re.fullmatch (Re.lit (String "010" EmptyString)) s = true →
  s = String "010" EmptyString.
Proof.
  destruct s as [|c [|d s]];
    cbn [Re.fullmatch Re.lit Re.deriv Re.nullable andb orb]; try done.
  - destruct (Ascii.eqb "010" c) eqn:Hc; [|done].
    apply Ascii.eqb_eq in Hc as <-. done.
  - destruct (Ascii.eqb "010" c);
      cbn [Re.fullmatch Re.lit Re.deriv Re.nullable andb orb]; intros H;
      by rewrite fullmatch_void in H.
Qed.

(** On a stripped string the dollar only matches at the end. *)
Lemma match_to_end_stripped (r : Re.regex) (s : string) :
  Re.match_to_end r (strip s) = Re.fullmatch r (strip s).
Proof.
  unfold Re.match_to_end.
  destruct (Re.fullmatch (Re.Seq r _) (strip s)) eqn:Hm;
    [|by rewrite orb_false_r].
  exfalso. apply fullmatch_seq in Hm as (s1 & s2 & Hs & _ & H2).
  apply fullmatch_newline in H2 as ->.
  assert (Hl : last_char (strip s) = Some "010"%char)
    by by rewrite Hs, last_char_app.
  apply rstrip_last in Hl. done.
Qed.

(** X4: [download_url] starts a job only when the stripped text of the entry
    is not empty and matches the pattern; the job then gets this stripped
    text, which holds a dot and no white space. *)
Theorem started_job_has_valid_url (g : Gui) (url : string) :
  In (StartJob url) (download_url g).2 →
  url = strip (url_entry g) ∧
  url ≠ EmptyString ∧
  Re.fullmatch url_regex url = true ∧
  char_in url "." = true ∧
  (∀ c, isspace c = true → char_in url c = false).
Proof.
  unfold download_url, url_pattern_match.
  destruct (strip (url_entry g)) as [|a u] eqn:Hs; [simpl; naive_solver|].
  rewrite <- Hs, match_to_end_stripped. cbn [truthy negb orb].
  rewrite Hs. cbn [truthy negb orb].
  destruct (Re.fullmatch url_regex (String a u)) eqn:Hm;
    cbn [negb snd]; [|simpl; naive_solver].
  intros [?|[[= <-]|[]]]; [done|].
  split; [done|]. split; [done|]. split; [done|].
  split; [by apply (fullmatch_requires _ url_regex);
          [apply url_regex_requires_dot|]|].
  intros c Hc. apply (fullmatch_avoids _ url_regex); [|done].
  by apply url_regex_avoids_space.
Qed.

Lemma started_job_has_valid_url_witness :
  In (StartJob "https://x.test/watch?v=abc")
     (download_url {| url_entry := " https://x.test/watch?v=abc ";
                      active_downloads := ∅ |}).2 ∧
  char_in "https://x.test/watch?v=abc" " " = false.
Proof.
  assert (H : In (StartJob "https://x.test/watch?v=abc")
                (download_url {| url_entry := " https://x.test/watch?v=abc ";
                                 active_downloads := ∅ |}).2)
    by (vm_compute; tauto).
  split; [exact H|].
  apply (started_job_has_valid_url _ _ H). reflexivity.
Defined.

End Validation.

(** * The rows of the downloads *)

Section Rows.

Import PyStr.

Lemma style_name_inj (row row' : nat) :
  style_name row = style_name row' → row = row'.
Proof.
  unfold style_name. intros H.
  assert (H' : pretty row +:+ ".Horizontal.TProgressbar"
               = pretty row' +:+ ".Horizontal.TProgressbar")
    by (by injection H).
  assert (Hl : String.length (pretty row) = String.length (pretty row')).
  { apply (f_equal String.length) in H'. rewrite !app_length_str in H'. lia. }
  destruct (app_inj_length _ _ _ _ Hl H') as [Hp _].
  by apply (inj pretty) in Hp.
Qed.

Lemma download_url_accepted (g : Gui) :
  accepted g →
  download_url g
  = ({| url_entry := EmptyString;
        active_downloads :=
          <[get_url_id (strip (url_entry g)) := size (active_downloads g)]>
            (active_downloads g) |},
     [AddRow (size (active_downloads g)) (get_url_id (strip (url_entry g)))
             (style_name (size (active_downloads g)));
      StartJob (strip (url_entry g))]).
Proof.
  intros [Hne Hm]. unfold download_url. rewrite Hm.
  by destruct (strip (url_entry g)).
Qed.

(** X5: a download whose text is not yet among the active downloads is put
    in the row whose number is the number of downloads so far, with the
    style named after this row, and is recorded with this row; as long as
    every download so far was, this row and this style are those of no
    other download, the other downloads keep their rows, and the downloads
    are one more. *)
Theorem fresh_id_gets_fresh_row (g : Gui) :
  accepted g →
  rows_below (active_downloads g) →
  active_downloads g !! get_url_id (strip (url_entry g)) = None →
  ∃ row style,
    (download_url g).2
    = [AddRow row (get_url_id (strip (url_entry g))) style;
       StartJob (strip (url_entry g))] ∧
    row = size (active_downloads g) ∧
    style = style_name row ∧
    active_downloads (download_url g).1 !! get_url_id (strip (url_entry g))
    = Some row ∧
    (∀ url_id row', active_downloads g !! url_id = Some row' →
                    row' ≠ row ∧ style_name row' ≠ style ∧
                    active_downloads (download_url g).1 !! url_id
                    = Some row') ∧
    size (active_downloads (download_url g).1)
    = S (size (active_downloads g)) ∧
    rows_below (active_downloads (download_url g).1).
Proof.
  intros Ha Hb Hn. rewrite (download_url_accepted g Ha).
  cbn [fst snd active_downloads]. eexists _, _.
  split; [reflexivity|]. split; [reflexivity|]. split; [reflexivity|].
  split; [by rewrite lookup_insert_eq|]. split; [|split].
  - intros url_id row H. specialize (Hb _ _ H).
    split; [lia|]. split; [intros He%style_name_inj; lia|].
    rewrite lookup_insert_ne; [done|]. intros <-. congruence.
  - by apply map_size_insert_None.
  - intros url_id row. rewrite map_size_insert_None by done.
    rewrite lookup_insert. case_decide.
    + intros [= <-]. lia.
    + intros Hx. specialize (Hb _ _ Hx). lia.
Qed.

Lemma fresh_id_gets_fresh_row_witness :
  accepted {| url_entry := "https://x.test/watch?v=abc";
              active_downloads := {["xyz" := 0%nat]} |} ∧
  (download_url {| url_entry := "https://x.test/watch?v=abc";
                   active_downloads := {["xyz" := 0%nat]} |}).2
  = [AddRow 1 "abc" "bar1.Horizontal.TProgressbar";
     StartJob "https://x.test/watch?v=abc"] ∧
  size (active_downloads
          (download_url {| url_entry := "https://x.test/watch?v=abc";
                           active_downloads := {["xyz" := 0%nat]} |}).1)
  = 2%nat.
Proof.
  assert (Ha : accepted {| url_entry := "https://x.test/watch?v=abc";
                           active_downloads := {["xyz" := 0%nat]} |})
    by (split; [discriminate|by vm_compute]).
  assert (Hid : get_url_id (strip "https://x.test/watch?v=abc") = "abc")
    by by vm_compute.
  assert (Hst : strip "https://x.test/watch?v=abc"
                = "https://x.test/watch?v=abc") by by vm_compute.
  split; [exact Ha|].
  destruct (fresh_id_gets_fresh_row _ Ha)
    as (row & style & Hact & Hrow & Hstyle & _ & _ & Hs & _).
  - intros url_id row H. cbn [active_downloads] in *.
    apply lookup_singleton_Some in H as [<- <-].
    rewrite map_size_singleton. lia.
  - cbn [active_downloads url_entry]. rewrite Hid.
    by apply lookup_singleton_ne.
  - cbn [active_downloads url_entry] in Hact, Hrow, Hs.
    rewrite map_size_singleton in Hrow, Hs. subst row style.
    rewrite Hid, Hst in Hact. split; [exact Hact|exact Hs].
Defined.

(** X6: a download whose text is already among the active downloads takes a
    new row but does not make the downloads more numerous: the next download
    with another text is put in the same row, with the same style for its
    bar. *)
Theorem resubmitted_id_shares_row (g g' : Gui) (row : nat) :
  accepted g →
  active_downloads g !! get_url_id (strip (url_entry g)) = Some row →
  accepted g' →
  active_downloads g' = active_downloads (download_url g).1 →
  ∃ r style,
    (download_url g).2
    = [AddRow r (get_url_id (strip (url_entry g))) style;
       StartJob (strip (url_entry g))] ∧
    (download_url g').2
    = [AddRow r (get_url_id (strip (url_entry g'))) style;
       StartJob (strip (url_entry g'))] ∧
    r = size (active_downloads g).
Proof.
  intros Ha Hr Ha' Hg'. rewrite (download_url_accepted g' Ha'), Hg'.
  rewrite (download_url_accepted g Ha). cbn [fst snd active_downloads].
  rewrite map_size_insert_Some by eauto. by eexists _, _.
Qed.

Lemma resubmitted_id_shares_row_witness :
  accepted {| url_entry := "https://x.test/watch?v=abc";
              active_downloads := {["abc" := 0%nat]} |} ∧
  (download_url {| url_entry := "https://x.test/watch?v=def";
                   active_downloads := {["abc" := 1%nat]} |}).2
  = [AddRow 1 "def" "bar1.Horizontal.TProgressbar";
     StartJob "https://x.test/watch?v=def"].
Proof.
  assert (Ha : accepted {| url_entry := "https://x.test/watch?v=abc";
                           active_downloads := {["abc" := 0%nat]} |})
    by (split; [discriminate|by vm_compute]).
  assert (Ha' : accepted {| url_entry := "https://x.test/watch?v=def";
                            active_downloads := {["abc" := 1%nat]} |})
    by (split; [discriminate|by vm_compute]).
  assert (Hr : active_downloads
                 {| url_entry := "https://x.test/watch?v=abc";
                    active_downloads := {["abc" := 0%nat]} |}
               !! get_url_id
                    (strip (url_entry
                              {| url_entry := "https://x.test/watch?v=abc";
                                 active_downloads := {["abc" := 0%nat]} |}))
               = Some 0%nat)
    by by vm_compute.
  assert (Hg : active_downloads
                 {| url_entry := "https://x.test/watch?v=def";
                    active_downloads := {["abc" := 1%nat]} |}
               = active_downloads
                   (download_url
                      {| url_entry := "https://x.test/watch?v=abc";
                         active_downloads := {["abc" := 0%nat]} |}).1)
    by by vm_compute.
  split; [exact Ha|].
  destruct (resubmitted_id_shares_row _ _ 0 Ha Hr Ha' Hg)
    as (r & style & H1 & H2 & _).
  vm_compute in H1. injection H1 as <- <-. rewrite H2. by vm_compute.
Defined.

End Rows.

(** * More about [process_entry] *)

Section MoreStages.

Implicit Types (entry : Entry) (w : World) (fs : gset Path) (l : list Event).


(** The events of [process_entry] on a file that is on disk: the report
    of 92, those of the recognition stage, those of the tagging. *)
Lemma process_entry_events entry w fs :
  filename entry ∈ fs →
  ∃ fs1 l1,
    recognition_stage (filename entry) (temp_path entry) w fs
    = (Ret (stage_result w), fs1, l1) ∧
    Forall (stage_event (filename entry) (temp_path entry)) l1 ∧
    (∀ p, p ≠ temp_path entry → p ∈ fs1 ↔ p ∈ fs) ∧
    process_entry entry w fs
    = ((tag_and_rename entry w (stage_result w) fs1).1,
       UpdateProgress 92 :: l1
         ++ (tag_and_rename entry w (stage_result w) fs1).2).
Proof.
  intros Hin.
  destruct (recognition_stage_spec (filename entry) (temp_path entry) w fs)
    as (fs1 & l1 & Hs & _ & Hev & _ & Hfs).
  exists fs1, l1. split; [done|]. split; [done|]. split; [done|].
  rewrite (process_entry_present _ _ _ _ _ Hin Hs).
  by destruct (tag_and_rename entry w (stage_result w) fs1) as [[x fs2] l2].
Qed.

Lemma stage_event_plain (d t : Path) (ev : Event) :
  stage_event d t ev →
  is_save ev = false ∧ is_rename ev = false ∧ is_request ev = false.
Proof. unfold stage_event. naive_solver. Qed.

(** What [process_entry] records of a kind that the recognition stage
    does not record, the tagging recorded. *)
Lemma process_entry_in_tagging entry w fs (ev : Event) :
  is_save ev = true ∨ is_rename ev = true ∨ is_request ev = true →
  In ev (process_entry entry w fs).2 →
  filename entry ∈ fs ∧
  ∃ fs1, In ev (tag_and_rename entry w (stage_result w) fs1).2.
Proof.
  intros Hk Hin. destruct (decide (filename entry ∈ fs)) as [Hf|Hf].
  - split; [done|].
    destruct (process_entry_events entry w fs Hf)
      as (fs1 & l1 & _ & Hev & _ & Heq).
    rewrite Heq in Hin. cbn [snd] in Hin. exists fs1.
    destruct Hin as [<-|Hin]; [by destruct Hk as [?|[?|?]]|].
    apply in_app_or in Hin as [Hin|Hin]; [|done].
    rewrite Forall_forall in Hev.
    apply list_elem_of_In, Hev, stage_event_plain in Hin.
    destruct Hin as (? & ? & ?). destruct Hk as [?|[?|?]]; congruence.
  - by rewrite process_entry_missing in Hin.
Qed.

(** ** The cover *)






Lemma tag_and_rename_request entry w (result : Result) fs (url : string) :
  In (RequestsGet url) (tag_and_rename entry w result fs).2 →
  mp4_open w = IoOk ∧ url ≠ EmptyString ∧
  get_cover_url (get_track result) = Some url.
Proof.
  unfold tag_and_rename.
  destruct (mp4_open w), (no_track result),
    (get_cover_url (get_track result)) as [[|a u]|], (cover_get w),
    (mp4_save w), (rename_file w),
    (PyPath.below_out_dir (new_path entry result)); run; cbn [In];
    intros H; repeat (destruct H as [H|H]; try done);
    by injection H as <-.
Qed.

(** X8: the cover is asked for at the URL of the cover art of the track, or
    at that of its background when the track has no cover art or an empty
    one, and not at all when this URL is missing or empty. *)
Theorem cover_url_precedence entry w fs (url : string) :
  In (RequestsGet url) (process_entry entry w fs).2 →
  url ≠ EmptyString ∧
  ∃ t, stage_result w = ResultTrack t ∧
       (coverart t = Some url ∨
        (background t = Some url ∧
         (coverart t = None ∨ coverart t = Some EmptyString))).
Proof.
  intros Hin.
  apply process_entry_in_tagging in Hin as [_ [fs1 Hin]]; [|by right; right].
  apply tag_and_rename_request in Hin as (_ & Hne & Hc). split; [done|].
  destruct (stage_result w) as [| | |t]; try done. exists t. split; [done|].
  cbn [get_track get_cover_url] in Hc. unfold py_or in Hc.
  destruct (coverart t) as [[|a u]|]; cbn [PyStr.truthy] in Hc; auto.
Qed.

Lemma cover_url_precedence_witness :
  In (RequestsGet "http://img.test/bg.jpg")
     (process_entry ex_entry background_world {[ex_path]}).2 ∧
  "http://img.test/bg.jpg" ≠ EmptyString.
Proof.
  assert (H : In (RequestsGet "http://img.test/bg.jpg")
                 (process_entry ex_entry background_world {[ex_path]}).2)
    by (vm_compute; tauto).
  split; [exact H|].
  exact (proj1 (cover_url_precedence ex_entry background_world {[ex_path]} _ H)).
Defined.

(** ** Missing keys *)

(** A track without a title is tagged with the title of the entry, and a
    track without a subtitle with its uploader. *)
Lemma process_entry_fall_back entry w fs (t : Track) :
  filename entry ∈ fs → stage_result w = ResultTrack t → mp4_open w = IoOk →
  ∃ tags,
    In (Save (filename entry) tags) (process_entry entry w fs).2 ∧
    (track_title t = None → nam tags = entry_title entry) ∧
    (track_subtitle t = None → ART tags = entry_uploader entry).
Proof.
  intros Hin Hst Ho.
  destruct (process_entry_events entry w fs Hin) as (fs1 & l1 & _ & _ & _ & ->).
  rewrite Hst. destruct (tag_and_rename_saves entry w t fs1 Ho) as [cover Hs].
  eexists. split; [cbn [snd]; right; apply in_or_app; right; exact Hs|].
  destruct (resolve_tags_title_artist entry (Some t)
              (song_title_of entry (ResultTrack t))
              (artist_of entry (ResultTrack t)) cover) as [-> ->].
  unfold song_title_of, artist_of. cbn [get_track track_get].
  split; by intros ->.
Qed.

(** ** The metadata of the track *)

Lemma resolve_tags_metadata entry (t : Track) (metadata : list MetaItem)
    (rest : list (option (list MetaItem))) (song_title artist : string)
    (cover : option string) :
  sections t = Some metadata :: rest →
  ∃ album year genre,
    fold_left metadata_item metadata
      (EmptyString, PyStr.take 4 (default EmptyString (upload_date entry)),
       match genres_primary t with
       | Some g => if PyStr.truthy g then g else EmptyString
       | None => EmptyString
       end)
    = (album, year, genre) ∧
    alb (resolve_tags entry (Some t) song_title artist cover) = album ∧
    day (resolve_tags entry (Some t) song_title artist cover) = year ∧
    gen (resolve_tags entry (Some t) song_title artist cover) = genre.
Proof.
  intros Hs. unfold resolve_tags. rewrite Hs.
  destruct (fold_left _ _ _) as [[album year] genre]. by exists album, year, genre.
Qed.

(** X10: the last item of the metadata of the first section decides: titled
    "album" in any case of the letters it gives the album; titled
    "released", "release date" or "year" it gives the year, which is its
    text before the first dash; titled "genre" it gives the genre. *)
Theorem last_metadata_item_decides entry (t : Track) (items : list MetaItem)
    (rest : list (option (list MetaItem))) (key text song_title artist : string)
    (cover : option string) :
  sections t
  = Some (items ++ [{| item_title := Some key; item_text := Some text |}])
    :: rest →
  (PyStr.lower key = "album" →
   alb (resolve_tags entry (Some t) song_title artist cover) = text) ∧
  (PyStr.lower key = "released" ∨ PyStr.lower key = "release date"
   ∨ PyStr.lower key = "year" →
   day (resolve_tags entry (Some t) song_title artist cover)
   = first_piece text "-" ∧
   PyStr.char_in (day (resolve_tags entry (Some t) song_title artist cover))
                 "-" = false) ∧
  (PyStr.lower key = "genre" →
   gen (resolve_tags entry (Some t) song_title artist cover) = text).
Proof.
  intros Hs.
  destruct (resolve_tags_metadata entry t _ rest song_title artist cover Hs)
    as (album & year & genre & Hf & -> & -> & ->).
  rewrite fold_left_app in Hf. cbn [fold_left] in Hf.
  destruct (fold_left metadata_item items _) as [[album0 year0] genre0].
  unfold metadata_item in Hf. cbn [item_title item_text default] in Hf.
  unfold id in Hf.
  split; [|split].
  - intros Hk. rewrite Hk in Hf. cbn in Hf. congruence.
  - intros Hk.
    assert (year = first_piece text "-") as ->.
    { destruct Hk as [Hk|[Hk|Hk]]; rewrite Hk, item0_split in Hf;
        cbn in Hf; congruence. }
    split; [done|]. apply first_piece_no_char.
  - intros Hk. rewrite Hk in Hf. cbn in Hf. congruence.
Qed.

Lemma last_metadata_item_decides_witness :
  PyStr.lower "Released" = "released" ∧
  day (resolve_tags ex_entry (Some released_track) "Song" "Artist" None)
  = "2019".
Proof.
  split; [reflexivity|].
  destruct (last_metadata_item_decides ex_entry released_track
              [{| item_title := Some "Album"; item_text := Some "First" |}]
              [] "Released" "2019-05-17" "Song" "Artist" None eq_refl)
    as (_ & Hy & _).
  destruct (Hy (or_introl eq_refl)) as [-> _]. reflexivity.
Defined.

(** ** The recognition stage and the files *)

(** X11: the recognition never raises and changes the disk at one place
    only, the temporary MP3; this file has a name of its own in the
    directory of the download, neither that of the download nor that of the
    tagged file, so that the download is there after the stage if it was
    before. *)
Theorem recognition_touches_only_temp entry w fs (result : Result) :
  (∃ fs1 l1,
     recognition_stage (filename entry) (temp_path entry) w fs
     = (Ret (stage_result w), fs1, l1) ∧
     (∀ p, p ≠ temp_path entry → p ∈ fs1 ↔ p ∈ fs) ∧
     (filename entry ∈ fs → filename entry ∈ fs1)) ∧
  parent (temp_path entry) = parent (filename entry) ∧
  temp_path entry ≠ filename entry ∧
  temp_path entry ≠ new_path entry result.
Proof.
  split; [|split; [done|split]].
  - destruct (recognition_stage_spec (filename entry) (temp_path entry) w fs)
      as (fs1 & l1 & Hs & _ & _ & _ & Hfs).
    exists fs1, l1. split; [done|]. split; [done|]. intros Hin.
    apply Hfs; [|done]. intros H. by apply (temp_path_not_filename entry).
  - apply temp_path_not_filename.
  - apply temp_path_not_new_path.
Qed.

(** ** How [process_entry] ends *)



Lemma tag_and_rename_returns entry w (result : Result) fs (p : Path) fs' l :
  tag_and_rename entry w result fs = (Ret (Some p), fs', l) →
  p = new_path entry result ∧
  fs' = {[new_path entry result]} ∪ (fs ∖ {[filename entry]}) ∧
  mp4_open w = IoOk ∧ mp4_save w = IoOk ∧ rename_file w = IoOk ∧
  ∃ cover,
    In (Save (filename entry)
          (resolve_tags entry (get_track result) (song_title_of entry result)
             (artist_of entry result) cover)) l.
Proof.
  unfold tag_and_rename.
  destruct (mp4_open w), (no_track result),
    (get_cover_url (get_track result)) as [[|a url]|], (cover_get w),
    (mp4_save w), (rename_file w),
    (PyPath.below_out_dir (new_path entry result)); run;
    intros [= <- <- <-]; repeat (split; [done|]); eexists; cbn [In]; eauto 6.
Qed.

(** X13: when [process_entry] returns a path, the container was opened, the
    tags were saved and the file was renamed: the path is that of the tagged
    file, in the directory of the download and named after the artist and
    the title, it is on disk, and the name of the download is gone unless it
    is the same. *)
Theorem process_entry_returns_renamed_file entry w fs (p : Path) fs' l :
  process_entry entry w fs = (Ret (Some p), fs', l) →
  p = {| parent := parent (filename entry);
         name := base_name entry (stage_result w) +:+ ".m4a" |} ∧
  p ∈ fs' ∧
  (p ≠ filename entry → filename entry ∉ fs') ∧
  mp4_open w = IoOk ∧ mp4_save w = IoOk ∧ rename_file w = IoOk ∧
  ∃ tags, In (Save (filename entry) tags) l.
Proof.
  intros H. destruct (decide (filename entry ∈ fs)) as [Hf|Hf];
    [|by rewrite process_entry_missing in H].
  destruct (process_entry_events entry w fs Hf)
    as (fs1 & l1 & _ & _ & _ & Heq).
  rewrite Heq in H.
  destruct (tag_and_rename entry w (stage_result w) fs1) as [[x fs2] l2] eqn:Ht.
  cbn [fst snd] in H. injection H as -> -> <-.
  apply tag_and_rename_returns in Ht as (-> & -> & Ho & Hs & Hr & cover & Hin).
  split; [apply new_path_name|]. split; [set_solver|]. split; [set_solver|].
  repeat (split; [done|]). eexists. right. apply in_or_app. right. exact Hin.
Qed.

Lemma process_entry_returns_renamed_file_witness :
  (process_entry ex_entry ex_world {[ex_path]}).1.1 = Ret (Some ex_new_path) ∧
  ex_new_path ∈ (process_entry ex_entry ex_world {[ex_path]}).1.2.
Proof.
  assert (H : (process_entry ex_entry ex_world {[ex_path]}).1.1
              = Ret (Some ex_new_path)) by by vm_compute.
  split; [exact H|].
  destruct (process_entry ex_entry ex_world {[ex_path]}) as [[x fs'] l] eqn:Heq.
  cbn [fst snd] in H |- *. subst x.
  exact (proj1 (proj2 (process_entry_returns_renamed_file _ _ _ _ _ _ Heq))).
Defined.

End MoreStages.

(** * [process_entry] on the entries as the fetcher gives them *)

Section RawEntries.

Implicit Types (raw : RawEntry) (w : World) (fs : gset Path) (l : list Event).

Lemma process_raw_entry_missing raw w fs :
  raw_filename raw ∉ fs → process_raw_entry raw w fs = (Ret None, fs, []).
Proof.
  intros H. unfold process_raw_entry. run.
  rewrite bool_decide_eq_false_2 by done. by run.
Qed.

(** An uploader or a title that holds [None] makes line 350 or line 351
    raise, before anything is reported or done. *)
Lemma process_raw_entry_none_key raw w fs :
  raw_filename raw ∈ fs →
  raw_uploader raw = PyNone ∨ raw_title raw = PyNone →
  process_raw_entry raw w fs = (Exc ATTRIBUTE_ERROR, fs, []).
Proof.
  intros Hin Hk. unfold process_raw_entry. run.
  rewrite bool_decide_eq_true_2 by done. run.
  destruct (raw_uploader raw), (raw_title raw); cbn [get_replaced]; run;
    by destruct Hk.
Qed.

(** Where no key that is read holds [None], the entry is processed as the
    entry of its strings. *)
Lemma process_raw_entry_strings raw w fs :
  raw_uploader raw ≠ PyNone → raw_title raw ≠ PyNone →
  raw_upload_date raw ≠ PyNone ∨ mp4_open w ≠ IoOk
  ∨ no_track (stage_result w) = true →
  process_raw_entry raw w fs = process_entry (strings_of raw) w fs.
Proof.
  intros Hu Ht Hd. destruct (decide (raw_filename raw ∈ fs)) as [Hin|Hin];
    [|by rewrite process_raw_entry_missing, process_entry_missing].
  destruct (recognition_stage_spec (raw_filename raw) (raw_temp_path raw) w fs)
    as (fs1 & l1 & Hs & _).
  rewrite (process_entry_present _ _ _ fs1 l1) by done.
  unfold process_raw_entry. run. rewrite bool_decide_eq_true_2 by done. run.
  unfold raw_temp_path in Hs.
  unfold tag_and_rename, new_path, artist_of, song_title_of, entry_title,
    entry_uploader, resolve_tags.
  cbn [strings_of filename uploader title upload_date description webpage_url].
  destruct (raw_uploader raw) as [| |up]; [|done|];
    (destruct (raw_title raw) as [| |ti]; [|done|]);
    cbn [get_replaced present default]; unfold id; run; rewrite Hs;
    (destruct (mp4_open w) as [|eo]; [|by run]);
    (destruct (no_track (stage_result w)) eqn:Hnt; [by run|]);
    (destruct (raw_upload_date raw) as [| |da];
       [|by destruct Hd as [?|[?|?]]|]);
    cbn [get_year present default]; unfold id, resolve_raw_tags;
    destruct (get_cover_url (get_track (stage_result w))) as [[|a url]|],
      (cover_get w), (mp4_save w), (rename_file w); run;
    try match goal with
        | |- context [PyPath.below_out_dir ?p] =>
            destruct (PyPath.below_out_dir p); run
        end;
    by rewrite ?app_nil_r.
Qed.


Lemma key_value_strings (v : Field) (fallback s : string) :
  key_value v fallback s →
  v ≠ PyNone ∧
  PyStr.replace (default fallback (present v)) "/" "_" = subst_char "/" "_" s.
Proof.
  intros [[-> ->]| ->]; (split; [done|]); apply replace_char.
Qed.

(** X9: for a file that is on disk.  An entry whose uploader or title holds
    [None] is not tagged at all: line 350 or line 351 raises before anything
    is reported or done, and [None] is not read as a missing key.
    Otherwise, a missing key being read as "Unknown", a track without
    subtitle is tagged with the uploader of the entry, every slash of which
    is replaced by an underscore; and a track without title is tagged with
    the title of the entry, its slashes replaced in the same way and then
    cleaned, of the uploader so replaced among others. *)
Theorem missing_track_keys_fall_back raw w fs :
  raw_filename raw ∈ fs →
  (raw_uploader raw = PyNone ∨ raw_title raw = PyNone →
   process_raw_entry raw w fs = (Exc ATTRIBUTE_ERROR, fs, [])) ∧
  (∀ (t : Track) (up ti : string),
     key_value (raw_uploader raw) "Unknown" up →
     key_value (raw_title raw) "Unknown" ti →
     raw_upload_date raw ≠ PyNone →
     stage_result w = ResultTrack t → mp4_open w = IoOk →
     ∃ tags,
       In (Save (raw_filename raw) tags) (process_raw_entry raw w fs).2 ∧
       (track_subtitle t = None → ART tags = subst_char "/" "_" up) ∧
       (track_title t = None →
        nam tags
        = clean_title (subst_char "/" "_" up) (subst_char "/" "_" ti))).
Proof.
  intros Hin. split; [by apply process_raw_entry_none_key|].
  intros t up ti [Hu Hup]%key_value_strings [Ht Hti]%key_value_strings
    Hd Hst Ho.
  rewrite process_raw_entry_strings by auto.
  destruct (process_entry_fall_back (strings_of raw) w fs t Hin Hst Ho)
    as (tags & Hs & Hnam & Hart).
  exists tags. split; [exact Hs|].
  unfold entry_title, entry_uploader in Hnam, Hart.
  cbn [strings_of uploader title] in Hnam, Hart.
  rewrite Hup in Hnam, Hart. rewrite Hti in Hnam. by split.
Qed.

Lemma missing_track_keys_fall_back_witness :
  (raw_filename no_uploader_entry ∈ ({[ex_path]} : gset Path)) ∧
  process_raw_entry none_uploader_entry ex_world {[ex_path]}
  = (Exc "'NoneType' object has no attribute 'replace'", {[ex_path]}, []) ∧
  ∃ tags,
    In (Save ex_path tags)
       (process_raw_entry no_uploader_entry bare_world {[ex_path]}).2 ∧
    ART tags = "Unknown" ∧ nam tags = "Live 1_2".
Proof.
  assert (Hin : raw_filename no_uploader_entry ∈ ({[ex_path]} : gset Path))
    by (apply elem_of_singleton; reflexivity).
  split; [exact Hin|]. split.
  - exact (proj1 (missing_track_keys_fall_back none_uploader_entry ex_world
                    {[ex_path]} Hin) (or_introl eq_refl)).
  - destruct (proj2 (missing_track_keys_fall_back no_uploader_entry bare_world
                       {[ex_path]} Hin)
                bare_track "Unknown" "Live 1/2 (Official Video)")
      as (tags & Hs & Ha & Ht).
    + left. by split.
    + right. reflexivity.
    + discriminate.
    + reflexivity.
    + reflexivity.
    + exists tags. split; [exact Hs|].
      split; [exact (Ha eq_refl)|]. rewrite (Ht eq_refl). by vm_compute.
Defined.



End RawEntries.

(** * More about [job] *)

Section MoreJob.

Implicit Types (entry : Entry) (w : World) (fs : gset Path) (l : list Event).

Lemma finish_calls_app l l' :
  finish_calls (l ++ l') = finish_calls l ++ finish_calls l'.
Proof. apply List.filter_app. Qed.

Lemma finish_calls_none l :
  Forall (λ ev, is_finish ev = false) l → finish_calls l = [].
Proof.
  induction 1 as [|ev l Hev _ IH]; [done|]. unfold finish_calls in *.
  simpl. by rewrite Hev.
Qed.

Lemma job_prefix_no_finish (allow_playlist : bool) (url : string) (f : Fetch) :
  Forall (λ ev, is_finish ev = false) (job_prefix allow_playlist url f).
Proof.
  unfold job_prefix. apply Forall_app. split; [by repeat constructor|].
  apply hook_events_no_finish.
Qed.

Lemma error_kind_tagging (e : string) :
  error_kind ("Tagging Error: " +:+ e) = Some TaggingError.
Proof. reflexivity. Qed.

Lemma error_kind_convert (e : string) :
  error_kind ("Convert Error: " +:+ e) = Some ConvertError.
Proof. reflexivity. Qed.

(** A turn of the loop that ends the job has shown one failure, of the
    tagging or of the conversion. *)
Lemma entry_step_return (fmt : Format) (ff : option string) entry w fs fs' l :
  entry_step fmt ff (entry, w) fs = (Ret Return, fs', l) →
  ∃ msg, finish_calls l = [FinishBar false None (Some msg)] ∧
         (error_kind msg = Some TaggingError
          ∨ error_kind msg = Some ConvertError).
Proof.
  destruct (process_entry_spec entry w fs)
    as (x & fs1 & l1 & Hpe & _ & Hev & _ & _).
  assert (Hf : finish_calls (UpdateProgress 90 :: l1) = []).
  { apply finish_calls_none. constructor; [done|].
    eapply Forall_impl; [exact Hev|].
    intros ev Hx. apply (entry_event_plain _ _ _ Hx). }
  destruct x as [[p|]|e].
  - destruct (decide (fmt = m4a)) as [->|Hfmt].
    { by rewrite (entry_step_m4a _ _ _ _ _ _ _ Hpe). }
    rewrite (entry_step_convert _ _ _ _ _ _ _ _ Hfmt Hpe).
    destruct (convert w) as [|e wrote], (source_unlink w) as [|e'];
      intros [= <- <-]; rewrite (app_comm_cons l1), finish_calls_app, Hf;
      eexists; (split; [reflexivity|]); right; apply error_kind_convert.
  - by rewrite (entry_step_no_path _ _ _ _ _ _ _ Hpe).
  - rewrite (entry_step_raises _ _ _ _ _ _ _ _ Hpe). intros [= <- <-].
    rewrite (app_comm_cons l1), finish_calls_app, Hf.
    eexists. split; [reflexivity|]. left. apply error_kind_tagging.
Qed.

Lemma entries_loop_outcome (fmt : Format) (ff : option string)
    (entries : list (Entry * World)) fs :
  ∃ flow fs' l,
    entries_loop fmt ff entries fs = (Ret flow, fs', l) ∧
    match flow with
    | Next _ => finish_calls l = []
    | Return =>
        ∃ msg, finish_calls l = [FinishBar false None (Some msg)] ∧
               (error_kind msg = Some TaggingError
                ∨ error_kind msg = Some ConvertError)
    end.
Proof.
  revert ff fs. induction entries as [|[entry w] rest IH]; intros ff fs.
  - by exists (Next ff), fs, [].
  - rewrite entries_loop_cons.
    destruct (entry_step_spec fmt ff entry w fs)
      as (flow & fs1 & l1 & mid & Hst & _ & _ & Hflow).
    rewrite Hst. destruct flow as [ff'|].
    + destruct Hflow as [_ Hn%finish_calls_none].
      destruct (IH ff' fs1) as (flow & fs2 & l2 & -> & Hflow2).
      exists flow, fs2, (l1 ++ l2). split; [done|].
      rewrite finish_calls_app, Hn. by destruct flow.
    + exists Return, fs1, l1. split; [done|]. by eapply entry_step_return.
Qed.

(** X14: a job shows its outcome once: a success with the file name, or a
    failure with a message labelled as a failure of the download, of the
    tagging or of the conversion; except when the fetcher returns no info,
    where the job raises an exception that nothing catches and shows no
    outcome at all. *)
Theorem job_shows_one_outcome (allow_playlist : bool) (fmt : Format)
    (url : string) (f : Fetch) fs :
  match fetched f with
  | Ret InfoNone =>
      (job allow_playlist fmt url f fs).1.1
      = Exc "argument of type 'NoneType' is not iterable" ∧
      finish_calls (job allow_playlist fmt url f fs).2 = []
  | _ =>
      (job allow_playlist fmt url f fs).1.1 = Ret () ∧
      ((∃ fn, finish_calls (job allow_playlist fmt url f fs).2
              = [FinishBar true fn None])
       ∨ (∃ msg kind,
            finish_calls (job allow_playlist fmt url f fs).2
            = [FinishBar false None (Some msg)] ∧
            error_kind msg = Some kind ∧ kind ≠ RecognitionError))
  end.
Proof.
  pose proof (finish_calls_none _ (job_prefix_no_finish allow_playlist url f))
    as Hp.
  destruct (fetched f) as [info|e] eqn:Hf.
  - assert (info = InfoNone ∨ info ≠ InfoNone) as [->|Hn]
      by (destruct info; auto).
    { by rewrite (job_no_info _ _ _ _ _ Hf). }
    destruct (entries_loop_outcome fmt None (fetched_entries f) (written f ∪ fs))
      as (flow & fs1 & l1 & Heq & Hflow).
    assert ((job allow_playlist fmt url f fs).1.1 = Ret () ∧
            ((∃ fn, finish_calls (job allow_playlist fmt url f fs).2
                    = [FinishBar true fn None])
             ∨ (∃ msg kind,
                  finish_calls (job allow_playlist fmt url f fs).2
                  = [FinishBar false None (Some msg)] ∧
                  error_kind msg = Some kind ∧ kind ≠ RecognitionError)));
      [|by destruct info].
    rewrite (job_entries _ _ _ _ _ _ _ _ _ Hf Hn Heq). split; [done|].
    cbn [snd]. rewrite !finish_calls_app, Hp. destruct flow as [ff|].
    + left. exists ff. by rewrite Hflow.
    + right. destruct Hflow as (msg & -> & [Hk|Hk]); eexists _, _;
        (split; [reflexivity|]); by rewrite Hk.
  - rewrite (job_download_error _ _ _ _ _ _ Hf). split; [done|]. right.
    cbn [snd]. rewrite !finish_calls_app, Hp.
    exists ("Download Error: " +:+ e), FetchError. by repeat split.
Qed.

(** X15: an exception of the fetcher ends the job with a failure labelled as
    a failure of the download and a message box; no entry is processed, and
    the disk holds what the fetcher wrote before it raised. *)
Theorem fetch_exception_ends_job (allow_playlist : bool) (fmt : Format)
    (url : string) (f : Fetch) fs (e : string) :
  fetched f = Exc e →
  job allow_playlist fmt url f fs
  = (Ret (), written f ∪ fs,
     job_prefix allow_playlist url f
       ++ [FinishBar false None (Some ("Download Error: " +:+ e));
           UpdateProgress 100;
           ShowError "Download Error" ("Error downloading video: " +:+ e)]) ∧
  error_kind ("Download Error: " +:+ e) = Some FetchError.
Proof. intros H. by rewrite (job_download_error _ _ _ _ _ _ H). Qed.

Lemma fetch_exception_ends_job_witness :
  fetched failing_fetch = Exc "HTTP Error 403: Forbidden" ∧
  (job false mp3 ex_url failing_fetch ∅).2
  = [UpdateProgress 5; UpdateProgress 10;
     ExtractInfo "https://x.test/watch?v=abc" OUTTMLP; UpdateProgress 40;
     FinishBar false None (Some "Download Error: HTTP Error 403: Forbidden");
     UpdateProgress 100;
     ShowError "Download Error"
               "Error downloading video: HTTP Error 403: Forbidden"].
Proof.
  split; [reflexivity|].
  rewrite (proj1 (fetch_exception_ends_job false mp3 ex_url failing_fetch ∅
                    "HTTP Error 403: Forbidden" eq_refl)).
  reflexivity.
Defined.

(** X16: the entries after one that fails are not processed: the job does
    the same whatever follows the failing entry. *)
Theorem entries_after_failure_not_processed (allow_playlist : bool)
    (fmt : Format) (url : string) (f f' : Fetch) fs before ew after after'
    ff fs1 l1 fs2 l2 :
  hook_calls f' = hook_calls f → written f' = written f →
  reaches fmt f fs before ew after ff fs1 l1 →
  fetched_entries f' = before ++ ew :: after' →
  entry_step fmt ff ew fs1 = (Ret Return, fs2, l2) →
  job allow_playlist fmt url f' fs = job allow_playlist fmt url f fs.
Proof.
  intros Hh Hw Hr He Hs.
  assert (Hr' : reaches fmt f' fs before ew after' ff fs1 l1).
  { destruct Hr as [_ Hl]. split; [done|]. by rewrite Hw. }
  rewrite (job_stops_at _ _ _ _ _ _ _ _ _ _ _ _ _ Hr Hs).
  rewrite (job_stops_at _ _ _ _ _ _ _ _ _ _ _ _ _ Hr' Hs).
  unfold job_prefix. by rewrite Hh.
Qed.

Lemma entries_after_failure_not_processed_witness :
  reaches m4a (playlist_fetch [Some (ex_entry, no_match_world);
                               Some (second_entry, ex_world)])
    ∅ [] (ex_entry, no_match_world) [(second_entry, ex_world)] None
    ({[ex_path; second_path]} ∪ ∅) [] ∧
  job true m4a ex_url (playlist_fetch [Some (ex_entry, no_match_world)]) ∅
  = job true m4a ex_url
      (playlist_fetch [Some (ex_entry, no_match_world);
                       Some (second_entry, ex_world)]) ∅.
Proof.
  assert (Hr : reaches m4a (playlist_fetch [Some (ex_entry, no_match_world);
                                            Some (second_entry, ex_world)])
                 ∅ [] (ex_entry, no_match_world) [(second_entry, ex_world)]
                 None ({[ex_path; second_path]} ∪ ∅) [])
    by (split; reflexivity).
  assert (Hflow : (entry_step m4a None (ex_entry, no_match_world)
                     ({[ex_path; second_path]} ∪ ∅)).1.1 = Ret Return)
    by by vm_compute.
  destruct (entry_step m4a None (ex_entry, no_match_world)
              ({[ex_path; second_path]} ∪ ∅)) as [[r fs2] l2] eqn:Hst.
  cbn [fst] in Hflow. subst r.
  split; [exact Hr|].
  exact (entries_after_failure_not_processed true m4a ex_url
           (playlist_fetch [Some (ex_entry, no_match_world);
                            Some (second_entry, ex_world)])
           (playlist_fetch [Some (ex_entry, no_match_world)]) ∅ [] _ _ [] None
           _ [] fs2 l2 eq_refl eq_refl Hr eq_refl Hst).
Defined.

(** ** The names of the files *)

(** X17: the converted file has the name of the tagged file with the
    extension of the format in place of m4a; both have the same stem, the
    artist and the title joined by a dash, and for a format other than m4a
    they are two files. *)
Theorem converted_file_keeps_base_name entry (result : Result) (fmt : Format) :
  converted_path fmt (new_path entry result)
  = {| parent := parent (filename entry);
       name := base_name entry result +:+ "." +:+ format_str fmt |} ∧
  PyPath.stem (converted_path fmt (new_path entry result))
  = base_name entry result ∧
  PyPath.stem (new_path entry result) = base_name entry result ∧
  (fmt ≠ m4a → converted_path fmt (new_path entry result)
               ≠ new_path entry result).
Proof.
  split; [apply converted_path_name|]. split; [apply stem_converted_path|].
  split; [apply stem_new_path|]. apply converted_path_other.
Qed.

Lemma converted_file_keeps_base_name_witness :
  mp3 ≠ m4a ∧
  converted_path mp3 (new_path ex_entry (ResultTrack ex_track))
  ≠ new_path ex_entry (ResultTrack ex_track).
Proof.
  assert (H : mp3 ≠ m4a) by discriminate.
  split; [exact H|].
  exact (proj2 (proj2 (proj2 (converted_file_keeps_base_name ex_entry
                                (ResultTrack ex_track) mp3))) H).
Defined.

(** X18: when the last entry yields a tagged file and the conversion, if
    there is one, does not raise, the job reports success with the stem of
    this file, the artist and the title joined by a dash, whatever the
    format and whatever the entries before it; with a conversion the
    converted file is then on disk and the tagged m4a is gone. *)
Theorem job_reports_base_name (allow_playlist : bool) (fmt : Format)
    (url : string) (f : Fetch) fs before entry w ff fs1 l1 (p : Path) fsp lp :
  reaches fmt f fs before (entry, w) [] ff fs1 l1 →
  process_entry entry w fs1 = (Ret (Some p), fsp, lp) →
  fmt = m4a ∨ convert_error w = None →
  ∃ fs2 l2,
    job allow_playlist fmt url f fs
    = (Ret (), fs2,
       job_prefix allow_playlist url f ++ l1 ++ l2
         ++ succeeded (Some (base_name entry (stage_result w)))) ∧
    (fmt ≠ m4a → converted_path fmt p ∈ fs2 ∧ p ∉ fs2).
Proof.
  intros Hr Hpe Hok.
  destruct (process_entry_spec entry w fs1) as (x & fs' & l & Hx & _ & _ & _ & Hp).
  rewrite Hpe in Hx. injection Hx as <- <- <-. destruct Hp as [-> Hin].
  pose proof (stem_converted_path entry (stage_result w) fmt) as Hsc.
  pose proof (stem_new_path entry (stage_result w)) as Hsn.
  pose proof (converted_path_other entry (stage_result w) fmt) as Hne.
  destruct (decide (fmt = m4a)) as [->|Hfmt].
  - eexists _, _. split; [|done].
    rewrite (job_finishes_after _ _ _ _ _ _ _ _ _ _ _ _ _ Hr
               (entry_step_m4a _ _ _ _ _ _ _ Hpe)).
    by rewrite Hsn.
  - destruct Hok as [?|Hok]; [done|].
    pose proof (entry_step_convert _ ff _ _ _ _ _ _ Hfmt Hpe) as Hst.
    unfold convert_error in Hok.
    destruct (convert w) as [|e wrote], (source_unlink w) as [|e'];
      try done.
    eexists _, _. split.
    + rewrite (job_finishes_after _ _ _ _ _ _ _ _ _ _ _ _ _ Hr Hst).
      by rewrite Hsc.
    + intros _. specialize (Hne Hfmt). set_solver.
Qed.

Lemma job_reports_base_name_witness :
  reaches mp3 (ex_fetch ex_world) ∅ [] (ex_entry, ex_world) [] None
          ({[ex_path]} ∪ ∅) [] ∧
  finish_calls (job false mp3 ex_url (ex_fetch ex_world) ∅).2
  = [FinishBar true (Some "Artist - Song") None].
Proof.
  assert (Hr : reaches mp3 (ex_fetch ex_world) ∅ [] (ex_entry, ex_world) []
                 None ({[ex_path]} ∪ ∅) []) by (split; reflexivity).
  assert (Hx : (process_entry ex_entry ex_world ({[ex_path]} ∪ ∅)).1.1
               = Ret (Some ex_new_path)) by by vm_compute.
  destruct (process_entry ex_entry ex_world ({[ex_path]} ∪ ∅))
    as [[x fsp] lp] eqn:Hpe.
  cbn [fst] in Hx. subst x.
  split; [exact Hr|].
  destruct (job_reports_base_name false mp3 ex_url (ex_fetch ex_world) ∅ []
              ex_entry ex_world None _ [] ex_new_path fsp lp Hr Hpe
              (or_intror eq_refl)) as (fs2 & l2 & Hjob & _).
  rewrite Hjob. cbn [snd].
  rewrite !finish_calls_app,
    (finish_calls_none _ (job_prefix_no_finish false ex_url (ex_fetch ex_world))).
  assert (Hl2 : finish_calls l2 = []).
  { assert (Hl : finish_calls (job false mp3 ex_url (ex_fetch ex_world) ∅).2
                 = [FinishBar true (Some "Artist - Song") None])
      by by vm_compute.
    rewrite Hjob in Hl. cbn [snd] in Hl.
    rewrite !finish_calls_app,
      (finish_calls_none _ (job_prefix_no_finish false ex_url
                              (ex_fetch ex_world))) in Hl.
    cbn [app] in Hl. destruct (finish_calls l2); [done|].
    apply (f_equal length) in Hl. simpl in Hl. rewrite length_app in Hl.
    simpl in Hl. lia. }
  rewrite Hl2. reflexivity.
Defined.

(** ** The output template *)

Lemma job_events_start (allow_playlist : bool) (fmt : Format) (url : string)
    (f : Fetch) fs :
  ∃ rest, (job allow_playlist fmt url f fs).2
          = job_prefix allow_playlist url f ++ rest.
Proof.
  destruct (fetched f) as [info|e] eqn:Hf.
  - assert (info = InfoNone ∨ info ≠ InfoNone) as [->|Hn]
      by (destruct info; auto).
    + rewrite (job_no_info _ _ _ _ _ Hf). exists []. by rewrite app_nil_r.
    + destruct (entries_loop_spec fmt None (fetched_entries f) (written f ∪ fs))
        as (flow & fs1 & l1 & Heq & _).
      rewrite (job_entries _ _ _ _ _ _ _ _ _ Hf Hn Heq). by eexists.
  - rewrite (job_download_error _ _ _ _ _ _ Hf). by eexists.
Qed.

(** X19: the fetcher is given the template of a playlist, with a directory
    named after the playlist, exactly when playlists are allowed and the URL
    holds "&list="; in every other case all the files are written to the
    output directory itself. *)
Theorem playlist_template_only_when_allowed (allow_playlist : bool)
    (fmt : Format) (url : string) (f : Fetch) fs :
  ∃ rest,
    (job allow_playlist fmt url f fs).2
    = UpdateProgress 5 :: UpdateProgress 10
      :: ExtractInfo (url_local allow_playlist url)
           (if allow_playlist && PyStr.contains url "&list="
            then OUTTMLP_PLAYLIST else OUTTMLP)
      :: rest.
Proof.
  destruct (job_events_start allow_playlist fmt url f fs) as [rest ->].
  unfold job_prefix. eexists. cbn [app]. do 3 f_equal.
  destruct allow_playlist; [done|]. cbn [andb url_local negb].
  rewrite item0_split. by rewrite first_piece_no_sep_inside.
Qed.

(** ** The values reported *)

Lemma entries_loop_progress (fmt : Format) (ff : option string)
    (entries : list (Entry * World)) fs :
  Forall own_progress (progress (entries_loop fmt ff entries fs).2).
Proof.
  revert ff fs. induction entries as [|[entry w] rest IH]; intros ff fs.
  - constructor.
  - rewrite entries_loop_cons.
    destruct (entry_step_spec fmt ff entry w fs)
      as (flow & fs1 & l1 & mid & Hst & Hmid & _ & Hflow).
    rewrite Hst.
    assert (Hm : Forall own_progress mid).
    { destruct Hmid as [-> | ->]; repeat (constructor; [unfold own_progress; lia|]); constructor. }
    destruct flow as [ff'|].
    + specialize (IH ff' fs1).
      destruct (entries_loop fmt ff' rest fs1) as [[r fs2] l2].
      cbn [snd] in *. rewrite progress_app. apply Forall_app. split; [|done].
      destruct Hflow as [-> _]. constructor; [|done].
      unfold own_progress; lia.
    + cbn [snd]. destruct Hflow as [-> _]. constructor.
      * unfold own_progress; lia.
      * apply Forall_app. split; [done|].
        repeat (constructor; [unfold own_progress; lia|]); constructor.
Qed.

(** X20: apart from the percentages of the download hook, a job reports no
    other values than 5, 10, 90, 92, 96 and 100. *)
Theorem job_reports_fixed_values (allow_playlist : bool) (fmt : Format)
    (url : string) (f : Fetch) fs :
  Forall (λ val, own_progress val
                 ∨ In val (progress (hook_events (hook_calls f))))
         (progress (job allow_playlist fmt url f fs).2).
Proof.
  assert (Hown : ∀ vals, Forall own_progress vals →
            Forall (λ val, own_progress val
                           ∨ In val (progress (hook_events (hook_calls f))))
                   vals).
  { intros vals H. eapply Forall_impl; [exact H|]. auto. }
  assert (Hpre : Forall (λ val, own_progress val
                     ∨ In val (progress (hook_events (hook_calls f))))
                   (progress (job_prefix allow_playlist url f))).
  { rewrite progress_job_prefix.
    constructor; [left; unfold own_progress; lia|].
    constructor; [left; unfold own_progress; lia|].
    apply Forall_forall. intros val Hv. right. by apply list_elem_of_In. }
  destruct (fetched f) as [info|e] eqn:Hf.
  - assert (info = InfoNone ∨ info ≠ InfoNone) as [->|Hn]
      by (destruct info; auto).
    + by rewrite (job_no_info _ _ _ _ _ Hf).
    + pose proof (entries_loop_progress fmt None (fetched_entries f)
                    (written f ∪ fs)) as Hl.
      destruct (entries_loop_spec fmt None (fetched_entries f) (written f ∪ fs))
        as (flow & fs1 & l1 & Heq & _).
      rewrite Heq in Hl. rewrite (job_entries _ _ _ _ _ _ _ _ _ Hf Hn Heq).
      cbn [snd] in *. rewrite !progress_app.
      apply Forall_app. split; [done|]. apply Forall_app. split; [by apply Hown|].
      apply Hown. destruct flow; repeat (constructor; [unfold own_progress; lia|]); constructor.
  - rewrite (job_download_error _ _ _ _ _ _ Hf). cbn [snd].
    rewrite !progress_app. apply Forall_app. split; [done|]. apply Hown.
    repeat (constructor; [unfold own_progress; lia|]); constructor.
Qed.

(** ** A playlist without entries *)

(** X21: a playlist of which no entry is left, because it is empty or
    because all its entries are [None], is a success without a file name,
    reported right after the download. *)
Theorem playlist_without_entries_succeeds (allow_playlist : bool)
    (fmt : Format) (url : string) (f : Fetch) fs
    (entries : list (option (Entry * World))) :
  fetched f = Ret (InfoEntries entries) →
  Forall (λ e, e = None) entries →
  job allow_playlist fmt url f fs
  = (Ret (), written f ∪ fs, job_prefix allow_playlist url f ++ succeeded None).
Proof.
  intros Hf Hall.
  assert (He : fetched_entries f = []).
  { unfold fetched_entries. rewrite Hf. clear Hf.
    induction Hall as [|? ? -> _ IH]; [done|exact IH]. }
  rewrite (job_entries _ _ _ _ _ (InfoEntries entries) (Next None)
             (written f ∪ fs) []); [done..|].
  by rewrite He.
Qed.

Lemma playlist_without_entries_succeeds_witness :
  Forall (λ e : option (Entry * World), e = None) [None; None] ∧
  finish_calls
    (job true wav ex_url
       {| hook_calls := []; written := ∅;
          fetched := Ret (InfoEntries [None; None]) |} ∅).2
  = [FinishBar true None None].
Proof.
  assert (H : Forall (λ e : option (Entry * World), e = None) [None; None])
    by (repeat constructor).
  split; [exact H|].
  rewrite (playlist_without_entries_succeeds true wav ex_url
             {| hook_calls := []; written := ∅;
                fetched := Ret (InfoEntries [None; None]) |} ∅
             [None; None] eq_refl H).
  reflexivity.
Defined.

(** ** What a finished row shows *)

Lemma entry_step_next (fmt : Format) (ff ff' : option string) entry w fs fs' l :
  entry_step fmt ff (entry, w) fs = (Ret (Next ff'), fs', l) →
  ff' = ff ∨ ff' = Some (base_name entry (stage_result w)).
Proof.
  destruct (process_entry_spec entry w fs)
    as (x & fs1 & l1 & Hpe & _ & _ & _ & Hp).
  destruct x as [[p|]|e].
  - destruct Hp as [-> _]. destruct (decide (fmt = m4a)) as [->|Hfmt].
    + rewrite (entry_step_m4a _ _ _ _ _ _ _ Hpe). intros [= <- _ _].
      right. by rewrite stem_new_path.
    + rewrite (entry_step_convert _ _ _ _ _ _ _ _ Hfmt Hpe).
      destruct (convert w) as [|e wrote], (source_unlink w) as [|e'];
        intros [= <- _ _]. right. by rewrite stem_converted_path.
  - rewrite (entry_step_no_path _ _ _ _ _ _ _ Hpe). intros [= <- _ _]. by left.
  - by rewrite (entry_step_raises _ _ _ _ _ _ _ _ Hpe).
Qed.

Lemma entries_loop_named (fmt : Format) (entries : list (Entry * World))
    (ff ff' : option string) fs fs' l :
  named ff →
  entries_loop fmt ff entries fs = (Ret (Next ff'), fs', l) →
  named ff'.
Proof.
  revert ff fs l. induction entries as [|[entry w] rest IH]; intros ff fs l Hn.
  - by intros [= <- _ _].
  - rewrite entries_loop_cons.
    destruct (entry_step fmt ff (entry, w) fs) as [[[[ff1|]|e] fs1] l1] eqn:Hst;
      [|done..].
    destruct (entries_loop fmt ff1 rest fs1) as [[r fs2] l2] eqn:Hl.
    intros [= -> -> _]. apply (IH ff1 fs1 l2); [|done].
    apply entry_step_next in Hst as [->| ->]; [done|].
    intros n [= <-]. apply base_name_ne.
Qed.

Lemma finish_calls_In (l : list Event) (success : bool)
    (filename error_msg : option string) :
  In (FinishBar success filename error_msg) l →
  In (FinishBar success filename error_msg) (finish_calls l).
Proof. intros H. apply filter_In. by split. Qed.

Lemma error_kind_given (msg : string) (kind : ErrorKind) :
  error_kind msg = Some kind → given (Some msg) = true.
Proof. by destruct msg. Qed.

(** X22: whatever a job shows at its end is shown in one of two ways. After
    a success the bar is green, and the stem of the last file that was
    tagged, if there is one, stands beside it in the default colour. After a
    failure the bar is red and the labelled message stands beside it in red:
    there is no failure without a text. *)
Theorem finished_row_shows_outcome (allow_playlist : bool) (fmt : Format)
    (url : string) (f : Fetch) fs (success : bool)
    (filename error_msg : option string) :
  In (FinishBar success filename error_msg)
     (job allow_playlist fmt url f fs).2 →
  (bar_color success = GREEN ∧
   file_label filename error_msg
   = match filename with
     | Some n => Some {| text := n; foreground := None |}
     | None => None
     end)
  ∨ (bar_color success = RED ∧
     ∃ msg, error_msg = Some msg ∧
            file_label filename error_msg
            = Some {| text := msg; foreground := Some RED |}).
Proof.
  intros Hin%finish_calls_In.
  pose proof (finish_calls_none _ (job_prefix_no_finish allow_playlist url f))
    as Hp.
  assert (Hfail : ∀ msg kind, error_kind msg = Some kind →
            file_label None (Some msg)
            = Some {| text := msg; foreground := Some RED |}).
  { intros msg kind Hk. by destruct msg. }
  destruct (fetched f) as [info|e] eqn:Hf.
  - assert (info = InfoNone ∨ info ≠ InfoNone) as [->|Hn]
      by (destruct info; auto).
    { rewrite (job_no_info _ _ _ _ _ Hf) in Hin. cbn [snd] in Hin.
      by rewrite Hp in Hin. }
    destruct (entries_loop_outcome fmt None (fetched_entries f) (written f ∪ fs))
      as (flow & fs1 & l1 & Heq & Hflow).
    rewrite (job_entries _ _ _ _ _ _ _ _ _ Hf Hn Heq) in Hin.
    cbn [snd] in Hin. rewrite !finish_calls_app, Hp in Hin.
    destruct flow as [ff|].
    + rewrite Hflow in Hin. destruct Hin as [[= <- <- <-]|[]].
      left. split; [done|].
      assert (Hnamed : named ff).
      { eapply entries_loop_named; [|exact Heq]. by intros n. }
      destruct ff as [n|]; [|done].
      specialize (Hnamed n eq_refl). by destruct n.
    + destruct Hflow as (msg & Hm & Hk). rewrite Hm in Hin.
      destruct Hin as [[= <- <- <-]|[]]. right. split; [done|].
      exists msg. split; [done|]. destruct Hk as [Hk|Hk]; eauto.
  - rewrite (job_download_error _ _ _ _ _ _ Hf) in Hin. cbn [snd] in Hin.
    rewrite !finish_calls_app, Hp in Hin.
    destruct Hin as [[= <- <- <-]|[]]. right. split; [done|].
    eexists. split; [done|]. by apply (Hfail _ FetchError).
Qed.

Lemma finished_row_shows_outcome_witness :
  In (FinishBar true (Some "Artist - Song") None)
     (job false mp3 ex_url (ex_fetch ex_world) ∅).2 ∧
  file_label (Some "Artist - Song") None
  = Some {| text := "Artist - Song"; foreground := None |}.
Proof.
  assert (H : In (FinishBar true (Some "Artist - Song") None)
                (job false mp3 ex_url (ex_fetch ex_world) ∅).2).
  { vm_compute. repeat first [left; reflexivity | right]. }
  split; [exact H|].
  destruct (finished_row_shows_outcome false mp3 ex_url (ex_fetch ex_world) ∅
              true (Some "Artist - Song") None H)
    as [[_ Hl]|[Hc _]]; [exact Hl|discriminate Hc].
Defined.

End MoreJob.
